(** * Photometry pipeline: calibration, plate solving and source extraction

    A shallow embedding of [Photometry_Project_WCS.py].

    Numbers.  The script computes on numpy [float64] arrays.  Finite
    samples are modelled as exact rationals ([Qc]), so rounding is outside
    the model; the two non-finite classes that a division can produce are
    kept ([Inf] for an infinity of either sign, [NaN]).  Statements over
    [Qc] are those that rounding does not change.  Where the order of the
    float64 operations decides the result, the frame combiner is also
    given on binary64 floats ([load_and_combine64]).

    Arrays.  A FITS image is a two-dimensional array, modelled as the list
    of its rows.  An array with no rows is identified with the 0 x 0
    array.  Binary numpy operations follow numpy's broadcasting rule.

    Libraries.  [ccdproc], [numpy], [astropy] and [photutils] are not part
    of the repository; the parts of them that the script relies on are
    modelled from their documented behaviour, and the parts that need
    real analysis (standard deviation, point-spread matching, aperture
    sums, spherical trigonometry) are parameters of the development.

    Effects.  The file system, the requests sent to the plate-solving
    service and the time slept are threaded through the script as a
    state; the service is an oracle.  The [while True] loop of
    [check_submission_status] is observed for a bounded number of
    iterations.  The plots are not modelled. *)

From Stdlib Require Import QArith Qcanon ZArith Ascii Floats.
From stdpp Require Import base numbers list sorting strings gmap.

Local Open Scope Qc_scope.

(** ** Python exceptions and results *)

Inductive py_error : Type :=
  | FileNotFoundError (path : string)
  | TypeError (msg : string)
  | ValueError (msg : string)
  | UnboundLocalError (name : string)
  | KeyError (key : string)
  | HTTPError
  | SingularMatrixError
  | InvalidTransformError
  | Exception (msg : string).

Inductive result (A : Type) : Type :=
  | Ok (a : A)
  | Raise (e : py_error).
Arguments Ok {A} a.
Arguments Raise {A} e.

#[global] Instance py_error_eq_dec : EqDecision py_error.
Proof. solve_decision. Defined.

#[global] Instance result_eq_dec `{EqDecision A} : EqDecision (result A).
Proof. solve_decision. Defined.

#[global] Instance result_ret : MRet result := @Ok.
#[global] Instance result_bind : MBind result := λ A B f m,
  match m with
  | Ok a => f a
  | Raise e => Raise e
  end.

(** ** Sample values *)

(** A [float64] value up to rounding: a finite rational, an infinity
    (sign forgotten) or a NaN. *)
Inductive fval : Type :=
  | Fin (q : Qc)
  | Inf
  | NaN.

#[global] Instance fval_eq_dec : EqDecision fval.
Proof. solve_decision. Defined.

Definition px (z : Z) : Qc := Qc_of_Z z.

(** IEEE division on the three classes: [x / 0] is an infinity for
    [x <> 0] and a NaN for [x = 0]; a finite value over an infinity is
    zero. *)
Definition fdiv (a b : fval) : fval :=
  match a, b with
  | NaN, _ | _, NaN => NaN
  | Inf, Inf => NaN
  | Inf, Fin _ => Inf
  | Fin _, Inf => Fin 0
  | Fin x, Fin y =>
      if decide (y = 0) then (if decide (x = 0) then NaN else Inf)
      else Fin (x / y)
  end.

Definition fmul (a b : fval) : fval :=
  match a, b with
  | NaN, _ | _, NaN => NaN
  | Inf, Inf => Inf
  | Inf, Fin y => if decide (y = 0) then NaN else Inf
  | Fin x, Inf => if decide (x = 0) then NaN else Inf
  | Fin x, Fin y => Fin (x * y)
  end.

(** ** Two-dimensional arrays with numpy broadcasting *)

Abbreviation ndarray A := (list (list A)).

Definition ncols {A} (a : ndarray A) : nat :=
  match a with
  | [] => 0
  | row :: _ => length row
  end.

Definition shape {A} (a : ndarray A) : nat * nat := (length a, ncols a).

(** Every row has the length of the first one. *)
Definition rectangular {A} (a : ndarray A) : Prop :=
  Forall (λ row, length row = ncols a) a.

(** numpy: two axis lengths are compatible when they are equal or one of
    them is 1. *)
Definition broadcast_dim (n m : nat) : option nat :=
  if decide (n = m) then Some n
  else if decide (n = 1%nat) then Some m
  else if decide (m = 1%nat) then Some n
  else None.

(** An axis of length 1 is repeated to the broadcast length. *)
Definition stretch {A} (n : nat) (l : list A) : list A :=
  match l with
  | [x] => replicate n x
  | _ => l
  end.

Definition broadcast_to {A} (r c : nat) (a : ndarray A) : ndarray A :=
  stretch r (stretch c <$> a).

Definition broadcast2 {A B C} (f : A → B → C)
    (a : ndarray A) (b : ndarray B) : result (ndarray C) :=
  match broadcast_dim (length a) (length b),
        broadcast_dim (ncols a) (ncols b) with
  | Some r, Some c =>
      Ok (zip_with (zip_with f) (broadcast_to r c a) (broadcast_to r c b))
  | _, _ => Raise (ValueError "operands could not be broadcast together")
  end.

(** An array combined with a scalar. *)
Definition map2d {A B} (f : A → B) (a : ndarray A) : ndarray B :=
  fmap (M := list) f <$> a.

Definition pixel {A} (a : ndarray A) (i j : nat) : option A :=
  a !! i ≫= λ row, row !! j.

(** ** Reductions *)

Definition Qc_of_nat (n : nat) : Qc := Qc_of_Z (Z.of_nat n).

(** Sequential accumulation, as numpy reduces along an axis.  The sum is
    exact here; [np_sum64] below is the rounded one. *)
Definition np_sum (l : list Qc) : Qc := foldl Qcplus 0 l.

Definition mean (l : list Qc) : Qc := np_sum l / Qc_of_nat (length l).

(** numpy's median: the middle element of the sorted values, or the mean
    of the two middle elements when their number is even. *)
Definition median (l : list Qc) : Qc :=
  let s := merge_sort Qcle l in
  let n := length s in
  if Nat.even n
  then (nth (n / 2 - 1) s 0 + nth (n / 2) s 0) / 2
  else nth (n / 2) s 0.

(** [np.median] of a whole array: the median of the flattened samples;
    NaN for an empty array. *)
Definition np_median (a : ndarray Qc) : fval :=
  match concat a with
  | [] => NaN
  | l => Fin (median l)
  end.

(** ** [load_and_combine] *)

Abbreviation image := (list (list Qc)).

(** The file system maps a path to the image stored in the FITS file at
    that path.  Opening a path that is not there raises. *)
Definition open_file (fs : gmap string image) (path : string) : result image :=
  match fs !! path with
  | Some img => Ok img
  | None => Raise (FileNotFoundError path)
  end.

(** [CCDData.read(file, unit = 'adu')]: the primary image of a FITS file. *)
Definition CCDData_read (fs : gmap string image) (file : string)
    : result image :=
  open_file fs file.

(** [ccd.subtract(dark_frame, handle_meta = 'first_found')]: numpy
    subtraction of the data arrays. *)
Definition CCDData_subtract (ccd dark_frame : image) : result image :=
  broadcast2 Qcminus ccd dark_frame.

(** The [for] loop that fills [ccd_list]. *)
Fixpoint read_frames (fs : gmap string image) (file_list : list string)
    (dark_frame : option image) (ccd_list : list image)
    : result (list image) :=
  match file_list with
  | [] => Ok ccd_list
  | file :: rest =>
      ccd ← CCDData_read fs file;
      ccd ← match dark_frame with
            | Some d => CCDData_subtract ccd d
            | None => Ok ccd
            end;
      read_frames fs rest dark_frame (ccd_list ++ [ccd])
  end.

(** [Combiner.data_arr], with the stacking axis moved last: the cell at
    (i, j) lists the samples of all frames at (i, j), in frame order. *)
Definition data_arr (first : image) (ccd_list : list image)
    : ndarray (list Qc) :=
  foldr (λ img acc, zip_with (zip_with cons) img acc)
        (map2d (λ _, []) first) ccd_list.

(** [Combiner(ccd_list)]: all frames must have the shape of the first
    one; with no frame at all the constructor fails when it builds the
    shape of the stack. *)
Definition Combiner (ccd_list : list image) : result (ndarray (list Qc)) :=
  match ccd_list with
  | [] => Raise (TypeError "can only concatenate tuple (not NoneType) to tuple")
  | first :: rest =>
      if forallb (λ ccd, bool_decide (shape ccd = shape first)) rest
      then Ok (data_arr first ccd_list)
      else Raise (TypeError "CCDData objects are not the same size.")
  end.

Definition average_combine (combiner : ndarray (list Qc)) : image :=
  map2d mean combiner.

Definition median_combine (combiner : ndarray (list Qc)) : image :=
  map2d median combiner.

Definition load_and_combine (fs : gmap string image)
    (file_list : list string) (combine_method : string)
    (dark_frame : option image) : result image :=
  ccd_list ← read_frames fs file_list dark_frame [];
  combiner ← Combiner ccd_list;
  if String.eqb combine_method "average" then
    Ok (average_combine combiner)
  else if String.eqb combine_method "median" then
    Ok (median_combine combiner)
  else Raise (UnboundLocalError "combined_data").

(** ** [load_and_combine] on float64 samples *)

(** The same function with the samples as binary64 floats and numpy's
    rounded operations: the sum of a stack is accumulated frame by
    frame, in the order of the list. *)
Abbreviation image64 := (list (list float)).

Definition float_of_nat (n : nat) : float :=
  PrimFloat.of_uint63 (Uint63.of_Z (Z.of_nat n)).

Definition np_sum64 (l : list float) : float := foldl PrimFloat.add 0%float l.

Definition mean64 (l : list float) : float :=
  PrimFloat.div (np_sum64 l) (float_of_nat (length l)).

Definition float_le (x y : float) : Prop := PrimFloat.leb x y = true.

#[global] Instance float_le_dec : RelDecision float_le.
Proof. intros x y. unfold float_le. apply _. Defined.

Definition median64 (l : list float) : float :=
  let s := merge_sort float_le l in
  let n := length s in
  if Nat.even n
  then PrimFloat.div (PrimFloat.add (nth (n / 2 - 1) s 0%float) (nth (n / 2) s 0%float))
                     2%float
  else nth (n / 2) s 0%float.

Definition open_file64 (fs : gmap string image64) (path : string)
    : result image64 :=
  match fs !! path with
  | Some img => Ok img
  | None => Raise (FileNotFoundError path)
  end.

Definition CCDData_read64 (fs : gmap string image64) (file : string)
    : result image64 :=
  open_file64 fs file.

Definition CCDData_subtract64 (ccd dark_frame : image64) : result image64 :=
  broadcast2 PrimFloat.sub ccd dark_frame.

Fixpoint read_frames64 (fs : gmap string image64) (file_list : list string)
    (dark_frame : option image64) (ccd_list : list image64)
    : result (list image64) :=
  match file_list with
  | [] => Ok ccd_list
  | file :: rest =>
      ccd ← CCDData_read64 fs file;
      ccd ← match dark_frame with
            | Some d => CCDData_subtract64 ccd d
            | None => Ok ccd
            end;
      read_frames64 fs rest dark_frame (ccd_list ++ [ccd])
  end.

Definition data_arr64 (first : image64) (ccd_list : list image64)
    : ndarray (list float) :=
  foldr (λ img acc, zip_with (zip_with cons) img acc)
        (map2d (λ _, []) first) ccd_list.

Definition Combiner64 (ccd_list : list image64)
    : result (ndarray (list float)) :=
  match ccd_list with
  | [] => Raise (TypeError "can only concatenate tuple (not NoneType) to tuple")
  | first :: rest =>
      if forallb (λ ccd, bool_decide (shape ccd = shape first)) rest
      then Ok (data_arr64 first ccd_list)
      else Raise (TypeError "CCDData objects are not the same size.")
  end.

Definition average_combine64 (combiner : ndarray (list float)) : image64 :=
  map2d mean64 combiner.

Definition median_combine64 (combiner : ndarray (list float)) : image64 :=
  map2d median64 combiner.

Definition load_and_combine64 (fs : gmap string image64)
    (file_list : list string) (combine_method : string)
    (dark_frame : option image64) : result image64 :=
  ccd_list ← read_frames64 fs file_list dark_frame [];
  combiner ← Combiner64 ccd_list;
  if String.eqb combine_method "average" then
    Ok (average_combine64 combiner)
  else if String.eqb combine_method "median" then
    Ok (median_combine64 combiner)
  else Raise (UnboundLocalError "combined_data").

(** ** The calibration arithmetic of the script (lines 109-111) *)

(** [combined_flat / np.median(combined_flat)] *)
Definition combined_flat_normalized (combined_flat : image) : ndarray fval :=
  map2d (λ f, fdiv (Fin f) (np_median combined_flat)) combined_flat.

(** [target_data - combined_dark.data] *)
Definition target_minus_dark (target_data combined_dark : image) : result image :=
  broadcast2 Qcminus target_data combined_dark.

(** [corrected_image = target_minus_dark / combined_flat_normalized] *)
Definition corrected_image (target_data combined_dark combined_flat : image)
    : result (ndarray fval) :=
  let flat_normalized := combined_flat_normalized combined_flat in
  minus_dark ← target_minus_dark target_data combined_dark;
  broadcast2 (λ t f, fdiv (Fin t) f) minus_dark flat_normalized.

(** ** The outside world: files, the plate-solving service, time *)

Record login_response : Type := {
  login_http_ok : bool;
  login_session : option string;
}.

Record upload_response : Type := {
  upload_http_ok : bool;
  upload_subid : option Z;
}.

(** The JSON object answered to a status request: the ['jobs'] array (empty
    when the key is absent; an entry is a job number or [null]) and the
    ['status'] string when present. *)
Record status_response : Type := {
  status_http_ok : bool;
  status_jobs : list (option Z);
  status_status : option string;
}.

Record calibration : Type := {
  cal_ra : Qc;
  cal_dec : Qc;
  cal_pixscale : Qc;
}.

Record info_response : Type := {
  info_http_ok : bool;
  info_calibration : option calibration;
}.

(** The service as the script sees it.  The answer to a status request
    may change from one request to the next: [status_reply k] answers the
    request number [k]. *)
Record service : Type := {
  login_reply : string → login_response;
  upload_reply : string → image → upload_response;
  status_reply : nat → status_response;
  info_reply : option Z → info_response;
}.

Inductive event : Type :=
  | PostLogin (api_key : string)
  | PostUpload (session_key : string) (body : image)
  | GetSubmission (session_key : string) (subid : Z)
  | GetJobInfo (job_id : option Z)
  | Sleep (seconds : nat).

#[global] Instance event_eq_dec : EqDecision event.
Proof. solve_decision. Defined.

Record world : Type := {
  files : gmap string image;
  trace : list event;
}.

(** A computation of the script: it returns, raises, or is still running
    when the observation ends. *)
Inductive outcome (A : Type) : Type :=
  | Returned (a : A)
  | Raised (e : py_error)
  | Running.
Arguments Returned {A} a.
Arguments Raised {A} e.
Arguments Running {A}.

#[global] Instance outcome_eq_dec `{EqDecision A} : EqDecision (outcome A).
Proof. solve_decision. Defined.

Definition M (A : Type) : Type := world → outcome A * world.

#[global] Instance M_ret : MRet M := λ A a w, (Returned a, w).
#[global] Instance M_bind : MBind M := λ A B f m w,
  match m w with
  | (Returned a, w') => f a w'
  | (Raised e, w') => (Raised e, w')
  | (Running, w') => (Running, w')
  end.

Definition raise {A} (e : py_error) : M A := λ w, (Raised e, w).

Definition lift {A} (r : result A) : M A :=
  match r with
  | Ok a => mret a
  | Raise e => raise e
  end.

Definition emit (e : event) : M unit := λ w,
  (Returned (), {| files := files w; trace := trace w ++ [e] |}).

Definition read_files : M (gmap string image) := λ w, (Returned (files w), w).

Definition write_file (path : string) (content : image) : M unit := λ w,
  (Returned (), {| files := <[path := content]> (files w); trace := trace w |}).

Section Client.
Variable svc : service.

Definition astrometry_login (api_key : string) : M string :=
  _ ← emit (PostLogin api_key);
  let result := login_reply svc api_key in
  if negb (login_http_ok result) then raise HTTPError else
  match login_session result with
  | Some session => mret session
  | None => raise (Exception "Failed to obtain session key from Astrometry.net")
  end.

Definition submit_fits_file (session_key fits_file_path : string) : M Z :=
  fs ← read_files;
  body ← lift (open_file fs fits_file_path);
  _ ← emit (PostUpload session_key body);
  let result := upload_reply svc session_key body in
  if negb (upload_http_ok result) then raise HTTPError else
  match upload_subid result with
  | Some subid => mret subid
  | None => raise (Exception "Failed to submit FITS file to Astrometry.net")
  end.

(** The [while True] loop, observed for at most [fuel] iterations; [k]
    counts the status requests already made. *)
Fixpoint check_submission_status (fuel k : nat)
    (session_key : string) (subid : Z) : M (option Z) :=
  match fuel with
  | O => λ w, (Running, w)
  | S fuel =>
      _ ← emit (GetSubmission session_key subid);
      let result := status_reply svc k in
      if negb (status_http_ok result) then raise HTTPError else
      match status_jobs result with
      | job :: _ => mret job
      | [] =>
          if bool_decide (status_status result = Some "failure")
          then raise (Exception "Submission failed")
          else
            _ ← emit (Sleep 30);
            check_submission_status fuel (S k) session_key subid
      end
  end.

Definition retrieve_results (job_id : option Z) : M info_response :=
  _ ← emit (GetJobInfo job_id);
  let result := info_reply svc job_id in
  if negb (info_http_ok result) then raise HTTPError else mret result.
End Client.

(** ** World coordinates *)

Record WCS : Type := {
  crpix : Qc * Qc;
  crval : Qc * Qc;
  cdelt : Qc * Qc;
  ctype : string * string;
}.

(** [WCS(naxis = 2)]: the reference pixel and the reference value are at
    the origin, the increments are 1 and the axes are linear. *)
Definition WCS_naxis2 : WCS :=
  {| crpix := (0, 0); crval := (0, 0); cdelt := (1, 1); ctype := ("", "") |}.

(** Lines 121-124: only [crval], [cdelt] and [ctype] are assigned. *)
Definition make_wcs (cal : calibration) : WCS :=
  {| crpix := crpix WCS_naxis2;
     crval := (cal_ra cal, cal_dec cal);
     cdelt := (cal_pixscale cal / px 3600, cal_pixscale cal / px 3600);
     ctype := ("RA---TAN", "DEC--TAN") |}.

(** The library brings a computed longitude to the side of zero on
    which the reference longitude [lng0] lies, and then into the range
    from -360 to 360 degrees. *)
Definition normalize_longitude (lng0 lng : Qc) : Qc :=
  let lng :=
    if decide (0 ≤ lng0)
    then (if decide (lng < 0) then lng + px 360 else lng)
    else (if decide (0 < lng) then lng - px 360 else lng) in
  if decide (px 360 < lng) then lng - px 360
  else if decide (lng < - px 360) then lng + px 360
  else lng.

(** The sky position of the point of tangency, for a reference latitude
    strictly between the poles.  The point is the pole of the rotated
    sphere: the library returns the reference longitude after
    normalization, and for the latitude 90 less the colatitude of the
    reference point, itself 90 less the reference latitude (two float64
    subtractions, whose rounding is outside the model). *)
Definition tangent_point_sky (crval : Qc * Qc) : Qc * Qc :=
  (normalize_longitude crval.1 crval.1, px 90 - (px 90 - crval.2)).

Record star : Type := {
  xcentroid : Qc;
  ycentroid : Qc;
}.

Record phot_row : Type := {
  xcenter : Qc;
  ycenter : Qc;
  aperture_sum : fval;
  ra_deg : Qc;
  dec_deg : Qc;
}.

#[global] Instance phot_row_eq_dec : EqDecision phot_row.
Proof. solve_decision. Defined.

Section Pipeline.
(** The numerical routines of the libraries. *)

(** [np.std] of an image. *)
Variable np_std : ndarray fval → fval.
(** The local maxima of an image that match a Gaussian profile of the
    given width and exceed the given threshold, as [photutils] finds
    them. *)
Variable find_peaks : Qc → fval → ndarray fval → list star.
(** The weighted sum of the samples inside a disk of the given radius
    and centre. *)
Variable disk_sum : ndarray fval → Qc → Qc * Qc → fval.
(** The gnomonic deprojection away from the reference point: reference
    sky position, plane offsets in degrees, sky position. *)
Variable tan_deproject : Qc * Qc → Qc * Qc → Qc * Qc.

(** [DAOStarFinder(fwhm, threshold)(data)]: the table of the stars
    found, or [None] when no star is found. *)
Definition DAOStarFinder (fwhm : Qc) (threshold : fval)
    (data : ndarray fval) : option (list star) :=
  match find_peaks fwhm threshold data with
  | [] => None
  | stars => Some stars
  end.

(** One position through the transformation.  [origin] is the
    coordinate of the first pixel in the caller's convention; [crpix]
    counts from 1 as FITS does.  With the matrix left at the identity
    the plane offsets are the pixel offsets scaled by [cdelt].  The
    reference point of the tangent-plane projection is the point of
    tangency; away from it, and for a reference point at a pole, the
    sky position is left to the deprojection. *)
Definition pix2world (wcs : WCS) (origin : Qc) (p : Qc * Qc) : Qc * Qc :=
  let u := p.1 + (1 - origin) - (crpix wcs).1 in
  let v := p.2 + (1 - origin) - (crpix wcs).2 in
  let x := (cdelt wcs).1 * u in
  let y := (cdelt wcs).2 * v in
  if bool_decide (ctype wcs = ("RA---TAN", "DEC--TAN")) then
    if bool_decide (x = 0 ∧ y = 0
                    ∧ - px 90 < (crval wcs).2 ∧ (crval wcs).2 < px 90)
    then tangent_point_sky (crval wcs)
    else tan_deproject (crval wcs) (x, y)
  else ((crval wcs).1 + x, (crval wcs).2 + y).

(** [wcs.all_pix2world(positions, origin)].  The call first sets the
    transformation up: a celestial reference latitude beyond a pole is
    refused, and a zero increment makes the linear part singular. *)
Definition all_pix2world (wcs : WCS) (positions : list (Qc * Qc))
    (origin : Qc) : result (list (Qc * Qc)) :=
  if bool_decide (ctype wcs = ("RA---TAN", "DEC--TAN"))
     && bool_decide ((crval wcs).2 < - px 90 ∨ px 90 < (crval wcs).2)
  then Raise InvalidTransformError
  else if bool_decide ((cdelt wcs).1 = 0 ∨ (cdelt wcs).2 = 0)
  then Raise SingularMatrixError
  else Ok (pix2world wcs origin <$> positions).

(** Lines 128-142: detection, aperture photometry and projection. *)
Definition measure_stars (corrected : ndarray fval) (wcs : WCS)
    : result (list phot_row) :=
  let daofind :=
    DAOStarFinder (Q2Qc (7 # 2)) (fmul (Fin (Q2Qc (11 # 5))) (np_std corrected)) in
  let stars := daofind corrected in
  match stars with
  | None => Raise (TypeError "'NoneType' object is not subscriptable")
  | Some stars =>
      let positions := zip (xcentroid <$> stars) (ycentroid <$> stars) in
      let phot_table := (λ p, (p, disk_sum corrected (px 3) p)) <$> positions in
      sky_coords ← all_pix2world wcs positions 0;
      Ok (zip_with (λ '(p, flux) sky,
                      {| xcenter := p.1; ycenter := p.2; aperture_sum := flux;
                         ra_deg := sky.1; dec_deg := sky.2 |})
                   phot_table sky_coords)
  end.

Variable svc : service.

(** The personal key of line 92. *)
Variable api_key : string.

Definition flat_field_paths : list string :=
  ["Calibration-0001flat-g-15s.fit"; "Calibration-0001flat-g-20s.fit"].
Definition dark_frame_paths : list string :=
  ["calibration-0001D-15.fit"; "calibration-0001D-20.fit"].
Definition target_path : string := "at2024ajf-0001g.fit".
Definition fits_file_path : string := "processed_image.fits".

(** The first cell of the notebook, from the login to the table of
    measurements; the status loop is observed for [fuel] iterations. *)
Definition pipeline (fuel : nat) : M (list phot_row) :=
  session_key ← astrometry_login svc api_key;
  fs ← read_files;
  combined_dark ← lift (load_and_combine fs dark_frame_paths "median" None);
  combined_flat ←
    lift (load_and_combine fs flat_field_paths "median" (Some combined_dark));
  target_fits ← lift (open_file fs target_path);
  let target_data := target_fits in
  corrected ← lift (corrected_image target_data combined_dark combined_flat);
  _ ← write_file fits_file_path target_fits;
  submission_id ← submit_fits_file svc session_key fits_file_path;
  job_id ← check_submission_status svc fuel 0 session_key submission_id;
  wcs_result ← retrieve_results svc job_id;
  cal ← match info_calibration wcs_result with
        | Some cal => mret cal
        | None => raise (KeyError "calibration")
        end;
  lift (measure_stars corrected (make_wcs cal)).
End Pipeline.

(** ** The second cell: stacking with SWarp *)

Definition newline : string := String "010"%char "".

(** What the cell prints. *)
Inductive message : Type :=
  | SwarpCompleted
  | SwarpError (returncode : Z).

(** The machine the cell runs on: text files, FITS files, standard
    output. *)
Record host : Type := {
  text_files : gmap string string;
  fits_on_disk : gmap string image;
  stdout : list message;
}.

(** How a command ends: with an exit status, or not started because the
    executable is not found. *)
Inductive exit : Type :=
  | Exited (returncode : Z)
  | NoExecutable.

(** The programs installed on the host: a command may change the files. *)
Definition programs : Type := list string → host → exit * host.

(** The text written by the [for] loop of [create_input_list]: one
    [write] per path. *)
Definition list_file_text (file_paths : list string) : string :=
  foldl (λ text path, text +:+ path +:+ newline) "" file_paths.

(** The file is opened with mode 'w': an existing file is replaced.  The
    host is one on which the path can be opened for writing, as the
    working directory of the notebook is for the default name; a path
    that cannot be opened is outside the model. *)
Definition create_input_list (file_paths : list string) (list_filename : string)
    (h : host) : string * host :=
  (list_filename,
   {| text_files := <[list_filename := list_file_text file_paths]> (text_files h);
      fits_on_disk := fits_on_disk h;
      stdout := stdout h |}).

Definition print_message (m : message) (h : host) : host :=
  {| text_files := text_files h; fits_on_disk := fits_on_disk h;
     stdout := stdout h ++ [m] |}.

(** [subprocess.run(command, check = True)] inside the [try]: only
    [CalledProcessError] is caught. *)
Definition run_swarp (os : programs) (input_list config_file : string)
    (h : host) : result unit * host :=
  let command := ["swarp"; "@" +:+ input_list; "-c"; config_file] in
  match os command h with
  | (Exited 0%Z, h') => (Ok (), print_message SwarpCompleted h')
  | (Exited returncode, h') => (Ok (), print_message (SwarpError returncode) h')
  | (NoExecutable, h') => (Raise (FileNotFoundError "swarp"), h')
  end.

Definition config_file : string := "default.swarp".
Definition fits_files : list string := ["at2024ajf-0001g.fit"; "at2024ajf-0001r.fit"].
Definition stacked_image_path : string := "coadd.fits".

(** Lines 218-225: the list file, SWarp, and the stacked image read
    back. *)
Definition stacking_cell (os : programs) (h : host) : result image * host :=
  let '(input_list_filename, h1) := create_input_list fits_files "input.list" h in
  match run_swarp os input_list_filename config_file h1 with
  | (Ok _, h2) => (open_file (fits_on_disk h2) stacked_image_path, h2)
  | (Raise e, h2) => (Raise e, h2)
  end.

(** * Notions used by the statements *)

(** The value of one corrected pixel, as the specification gives it. *)
Definition corrected_pixel (flat_median : fval) (raw dark flat : Qc) : fval :=
  fdiv (Fin (raw - dark)) (fdiv (Fin flat) flat_median).

(** The frame that enters the stack: the image read, minus the reference
    when one is given. *)
Definition subtract_reference (reference : option image) (img : image) : image :=
  match reference with
  | None => img
  | Some d => zip_with (zip_with Qcminus) img d
  end.

(** The sample that the frame [img] contributes at (i, j), as the
    specification gives it. *)
Definition calibrated_sample (reference : option image) (img : image)
    (i j : nat) : option Qc :=
  x ← pixel img i j;
  match reference with
  | None => Some x
  | Some d => r ← pixel d i j; Some (x - r)
  end.

(** A frame of shape [s]. *)
Definition frame (s : nat * nat) (img : image) : Prop :=
  shape img = s ∧ rectangular img.

Definition reference_frame (s : nat * nat) (reference : option image) : Prop :=
  ∀ d, reference = Some d → frame s d.

Definition two_flats : gmap string image :=
  <["a.fit" := [[px 100; px 100; px 100]]]>
  (<["b.fit" := [[px 102; px 98; px 100]]]> ∅).

Definition broadcast_error : py_error :=
  ValueError "operands could not be broadcast together".

(** numpy accepts two shapes when every pair of axis lengths is equal or
    contains a 1. *)
Definition compatible (s t : nat * nat) : bool :=
  bool_decide (is_Some (broadcast_dim s.1 t.1))
  && bool_decide (is_Some (broadcast_dim s.2 t.2)).

(** The shape of the result of a binary operation on operands of
    compatible shapes [s] and [t]. *)
Definition broadcast_shape (s t : nat * nat) : nat * nat :=
  match broadcast_dim s.1 t.1, broadcast_dim s.2 t.2 with
  | Some r, Some c => (r, if decide (r = 0%nat) then 0%nat else c)
  | _, _ => (0%nat, 0%nat)
  end.

(** The shape of the frames that enter the stack, for images of shape
    [s]. *)
Definition subtracted_shape (s : nat * nat) (reference : option image)
    : nat * nat :=
  match reference with
  | None => s
  | Some d => broadcast_shape s (shape d)
  end.

(** A response that makes the loop sleep and ask again. *)
Definition pending (r : status_response) : Prop :=
  status_http_ok r = true ∧ status_jobs r = []
  ∧ status_status r ≠ Some "failure".

#[global] Instance pending_dec r : Decision (pending r).
Proof. unfold pending. apply _. Defined.

(** The events of [n] iterations that found a pending response. *)
Definition poll_events (session_key : string) (subid : Z) (n : nat) : list event :=
  concat (replicate n [GetSubmission session_key subid; Sleep 30]).

Definition extend (w : world) (evs : list event) : world :=
  {| files := files w; trace := trace w ++ evs |}.

(** A service that never assigns a job and never declares failure. *)
Definition stalled : service :=
  {| login_reply := λ _, {| login_http_ok := true; login_session := Some "s" |};
     upload_reply := λ _ _, {| upload_http_ok := true; upload_subid := Some 1%Z |};
     status_reply := λ _, {| status_http_ok := true; status_jobs := [];
                             status_status := Some "processing" |};
     info_reply := λ _, {| info_http_ok := true; info_calibration := None |} |}.

(** The bodies posted to the upload endpoint, in order. *)
Definition uploads (t : list event) : list image :=
  omap (λ e, match e with PostUpload _ body => Some body | _ => None end) t.

(** A triple for the computations of the script: from a world in [P] the
    computation returns in [Q], or stops (raising or still running) in
    [E]. *)
Definition triple {A} (P : world → Prop) (m : M A)
    (Q : A → world → Prop) (E : world → Prop) : Prop :=
  ∀ w, P w →
    match m w with
    | (Returned a, w') => Q a w'
    | (_, w') => E w'
    end.


Definition solved : calibration :=
  {| cal_ra := px 150; cal_dec := px 2; cal_pixscale := px 2 |}.



(** A complete run: two darks, two flats, a target, and a service that
    answers "processing" once and then assigns job 7. *)
Definition night : gmap string image :=
  <["calibration-0001D-15.fit" := [[px 10; px 10]]]>
  (<["calibration-0001D-20.fit" := [[px 10; px 12]]]>
  (<["Calibration-0001flat-g-15s.fit" := [[px 14; px 19]]]>
  (<["Calibration-0001flat-g-20s.fit" := [[px 16; px 21]]]>
  (<["at2024ajf-0001g.fit" := [[px 50; px 60]]]> ∅)))).

Definition solving : service :=
  {| login_reply := login_reply stalled;
     upload_reply := upload_reply stalled;
     status_reply := λ k,
       {| status_http_ok := true;
          status_jobs := if (k <? 1)%nat then [] else [Some 7%Z];
          status_status := Some "processing" |};
     info_reply := λ _,
       {| info_http_ok := true; info_calibration := Some solved |} |}.

Definition one_star : list star := [{| xcentroid := px 0; ycentroid := px 1 |}].

Definition night_run : outcome (list phot_row) * world :=
  pipeline (λ _, Fin 0) (λ _ _ _, one_star) (λ _ _ _, Fin (px 96))
           (λ c xy, (c.1 + xy.1, c.2 + xy.2)) solving "key" 5
           {| files := night; trace := [] |}.

(** The states of the world that the upload goes through, for the file
    system [fs] the run starts from. *)
Section UploadStates.
Variable fs : gmap string image.

(** Nothing written, nothing uploaded. *)
Definition clean (w : world) : Prop :=
  files w = fs ∧ uploads (trace w) = [].

(** The raw target is stored under the name of the processed image. *)
Definition written (raw : image) (w : world) : Prop :=
  fs !! target_path = Some raw ∧ files w !! fits_file_path = Some raw
  ∧ uploads (trace w) = [].

Definition uploaded (raw : image) (w : world) : Prop :=
  fs !! target_path = Some raw ∧ files w !! fits_file_path = Some raw
  ∧ uploads (trace w) = [raw].

Definition upload_ok (w : world) : Prop :=
  uploads (trace w) = [] ∨ ∃ raw, uploaded raw w.
End UploadStates.

Definition between (lo hi x : Qc) : Prop := lo ≤ x ∧ x ≤ hi.

Definition loadable (fs : gmap string image) (reference : option image)
    (file : string) : Prop :=
  ∃ img, fs !! file = Some img
         ∧ ∀ d, reference = Some d → compatible (shape img) (shape d) = true.

(** Lines 101-111 as a function of the file system: the two master
    frames, the target and the corrected image. *)
Definition calibration_stage (fs : gmap string image)
    : result (image * ndarray fval) :=
  combined_dark ← load_and_combine fs dark_frame_paths "median" None;
  combined_flat ←
    load_and_combine fs flat_field_paths "median" (Some combined_dark);
  target_fits ← open_file fs target_path;
  corrected ← corrected_image target_fits combined_dark combined_flat;
  Ok (target_fits, corrected).

(** The file system of the start, and the one with the raw target
    stored under the name of the processed image. *)
Definition untouched (fs : gmap string image) (w : world) : Prop :=
  files w = fs.

Definition stored (fs : gmap string image) (w : world) : Prop :=
  ∃ raw, fs !! target_path = Some raw ∧ files w = <[fits_file_path := raw]> fs.

(** Three frames of one pixel on float64 samples: 0.1, 0.2 and 0.3, each
    rounded to the nearest binary64 number. *)
Definition tenths : gmap string image64 :=
  <["1.fit" := [[0x1.999999999999ap-4%float]]]>
  (<["2.fit" := [[0x1.999999999999ap-3%float]]]>
  (<["3.fit" := [[0x1.3333333333333p-2%float]]]> ∅)).

(** Three exposures of one field, the second hit by a cosmic ray. *)
Definition three_frames : gmap string image :=
  <["1.fit" := [[px 10; px 20]]]>
  (<["2.fit" := [[px 900; px 22]]]>
  (<["3.fit" := [[px 12; px 21]]]> ∅)).

(** The same image under two names. *)
Definition twice : gmap string image :=
  <["a.fit" := [[px 7; px 8]; [px 9; px 10]]]>
  (<["b.fit" := [[px 7; px 8]; [px 9; px 10]]]> ∅).

(** A service that rejects the key. *)
Definition rejecting : service :=
  {| login_reply := λ _, {| login_http_ok := true; login_session := None |};
     upload_reply := upload_reply stalled;
     status_reply := status_reply stalled;
     info_reply := info_reply stalled |}.

(** A service whose third status answer is an HTTP error that carries a
    job all the same. *)
Definition erroring : service :=
  {| login_reply := login_reply stalled;
     upload_reply := upload_reply stalled;
     status_reply := λ k,
       {| status_http_ok := (k <? 2)%nat;
          status_jobs := if (k <? 2)%nat then [] else [Some 7%Z];
          status_status := None |};
     info_reply := info_reply stalled |}.

(** A service whose second status answer lists a [null] job and declares
    failure. *)
Definition null_job : service :=
  {| login_reply := login_reply stalled;
     upload_reply := upload_reply stalled;
     status_reply := λ k,
       {| status_http_ok := true;
          status_jobs := if (k <? 1)%nat then [] else [None];
          status_status := if (k <? 1)%nat then None else Some "failure" |};
     info_reply := info_reply stalled |}.

(** A host with a stacked image left by an earlier run, on which SWarp
    fails with status 1 and changes nothing. *)
Definition stale_host : host :=
  {| text_files := ∅;
     fits_on_disk := <["coadd.fits" := [[px 1; px 2]]]> ∅;
     stdout := [] |}.

Definition failing_swarp : programs := λ _ h, (Exited 1, h).
Definition no_swarp : programs := λ _ h, (NoExecutable, h).

(** * Properties *)

Ltac by_evaluation := apply (bool_decide_eq_true_1 _); vm_compute; reflexivity.

(** ** Arrays of equal shape *)

Lemma stretch_id {A} (n : nat) (l : list A) : length l = n → stretch n l = l.
Proof.
  intros <-. destruct l as [|x [|y l]]; reflexivity.
Qed.

Section Arrays.
Context {A B C : Type}.
Implicit Types (a : ndarray A) (b : ndarray B) (f : A → B → C).

Lemma broadcast_to_id r c a :
  length a = r → Forall (λ row, length row = c) a → broadcast_to r c a = a.
Proof.
  intros Hr Hc. unfold broadcast_to.
  assert (stretch c <$> a = a) as ->; [|by apply stretch_id].
  clear Hr. induction Hc as [|row a Hrow _ IH]; [done|].
  rewrite fmap_cons, IH. f_equal. by apply stretch_id.
Qed.

Lemma broadcast_dim_same n : broadcast_dim n n = Some n.
Proof. unfold broadcast_dim. by rewrite decide_True. Qed.

Lemma pixel_map2d (g : A → B) a i j :
  pixel (map2d g a) i j = g <$> pixel a i j.
Proof.
  unfold pixel, map2d. rewrite list_lookup_fmap.
  destruct (a !! i) as [row|]; simpl; [|done].
  by rewrite list_lookup_fmap.
Qed.

Lemma shape_map2d (g : A → B) a : shape (map2d g a) = shape a.
Proof.
  unfold shape, map2d. rewrite length_fmap.
  destruct a as [|row a]; simpl; [done|]. by rewrite length_fmap.
Qed.

Lemma rectangular_map2d (g : A → B) a : rectangular a → rectangular (map2d g a).
Proof.
  unfold rectangular. intros H.
  assert (ncols (map2d g a) = ncols a) as ->.
  { destruct a; simpl; [done|]. by rewrite length_fmap. }
  unfold map2d. apply Forall_fmap. eapply Forall_impl; [exact H|].
  intros row Hrow. simpl. by rewrite length_fmap.
Qed.
End Arrays.

Section Arrays2.
Context {A B C : Type}.
Implicit Types (a : ndarray A) (b : ndarray B) (f : A → B → C).

Lemma broadcast2_same_shape f a b :
  shape a = shape b → rectangular a → rectangular b →
  broadcast2 f a b = Ok (zip_with (zip_with f) a b).
Proof.
  unfold shape. intros [= Hr Hc] Ha Hb. unfold broadcast2.
  rewrite <- Hr, <- Hc, !broadcast_dim_same.
  rewrite (broadcast_to_id _ _ a), (broadcast_to_id _ _ b); try done.
  unfold rectangular in Hb. by rewrite Hc.
Qed.

Lemma pixel_zip_with f a b i j x y :
  pixel a i j = Some x → pixel b i j = Some y →
  pixel (zip_with (zip_with f) a b) i j = Some (f x y).
Proof.
  unfold pixel. intros Ha Hb. rewrite lookup_zip_with.
  destruct (a !! i) as [ra|]; simpl in *; [|done].
  destruct (b !! i) as [rb|]; simpl in *; [|done].
  rewrite lookup_zip_with, Ha. simpl. by rewrite Hb.
Qed.

Lemma shape_zip_with f a b :
  shape a = shape b → shape (zip_with (zip_with f) a b) = shape a.
Proof.
  unfold shape. intros [= Hr Hc]. f_equal.
  - rewrite length_zip_with. lia.
  - destruct a as [|ra a], b as [|rb b]; simpl in *; try done.
    rewrite length_zip_with. lia.
Qed.

Lemma rectangular_zip_with f a b :
  shape a = shape b → rectangular a → rectangular b →
  rectangular (zip_with (zip_with f) a b).
Proof.
  intros Hs Ha Hb. unfold rectangular.
  pose proof (shape_zip_with f a b Hs) as [= _ ->].
  injection Hs as Hr Hc. unfold rectangular in Ha, Hb. rewrite <- Hc in Hb.
  clear Hr Hc. revert Ha Hb. generalize (ncols a). intros c Ha. revert b.
  induction Ha as [|ra a' Hra _ IH]; intros [|rb b] Hb; simpl; try constructor.
  - rewrite length_zip_with. apply Forall_cons_1 in Hb as [Hrb _]. lia.
  - apply IH. by apply Forall_cons_1 in Hb as [_ Hb].
Qed.
End Arrays2.

(** ** The calibration applier *)

Lemma corrected_image_same_shape (raw dark flat : image) :
  shape raw = shape dark → shape raw = shape flat →
  rectangular raw → rectangular dark → rectangular flat →
  corrected_image raw dark flat
  = Ok (zip_with (zip_with (λ t f, fdiv (Fin t) f))
          (zip_with (zip_with Qcminus) raw dark) (combined_flat_normalized flat)).
Proof.
  intros Hd Hf Rr Rd Rf. unfold corrected_image, target_minus_dark.
  rewrite broadcast2_same_shape by done. simpl.
  apply broadcast2_same_shape.
  - unfold combined_flat_normalized. rewrite shape_zip_with, shape_map2d; done.
  - by apply rectangular_zip_with.
  - by apply rectangular_map2d.
Qed.

(** C1: on a raw image, a dark master and a flat master of equal shape
    the applier returns an image of that shape whose pixel at every
    position is [(raw - dark) / (flat / median flat)]; the scenario
    [raw = [50]], [dark = [10]], [flat = [5]] gives [[40]]. *)
Theorem corrected_image_formula :
  (∀ raw dark flat : image,
     shape raw = shape dark → shape raw = shape flat →
     rectangular raw → rectangular dark → rectangular flat →
     ∃ corrected,
       corrected_image raw dark flat = Ok corrected
       ∧ shape corrected = shape raw
       ∧ ∀ i j r d f,
           pixel raw i j = Some r → pixel dark i j = Some d →
           pixel flat i j = Some f →
           pixel corrected i j = Some (corrected_pixel (np_median flat) r d f))
  ∧ corrected_image [[px 50]] [[px 10]] [[px 5]] = Ok [[Fin (px 40)]].
Proof.
  split; [|by_evaluation].
  intros raw dark flat Hd Hf Rr Rd Rf. eexists. split; [|split].
  - by apply corrected_image_same_shape.
  - rewrite shape_zip_with; [by apply shape_zip_with|].
    unfold combined_flat_normalized. by rewrite shape_zip_with, shape_map2d.
  - intros i j r d f Hr Hdk Hfl. unfold corrected_pixel.
    apply (pixel_zip_with (λ t f, fdiv (Fin t) f)).
    + by apply pixel_zip_with.
    + unfold combined_flat_normalized. by rewrite pixel_map2d, Hfl.
Qed.

(** ** The frame combiner *)

Lemma frame_subtract_reference s reference img :
  frame s img → reference_frame s reference →
  frame s (subtract_reference reference img).
Proof.
  intros [Hs Hr] Href. destruct reference as [d|]; simpl; [|done].
  destruct (Href d eq_refl) as [Hds Hdr]. split.
  - rewrite shape_zip_with; congruence.
  - apply rectangular_zip_with; [congruence|done..].
Qed.

Lemma read_frames_ok fs files imgs reference s acc :
  Forall2 (λ file img, fs !! file = Some img) files imgs →
  Forall (frame s) imgs → reference_frame s reference →
  read_frames fs files reference acc
  = Ok (acc ++ (subtract_reference reference <$> imgs)).
Proof.
  intros Hread Himgs Href. revert acc Himgs.
  induction Hread as [|file img files imgs Hfile _ IH]; intros acc Himgs; simpl.
  { by rewrite app_nil_r. }
  apply Forall_cons_1 in Himgs as [[Hs Hr] Himgs].
  unfold CCDData_read, open_file. rewrite Hfile. simpl.
  destruct reference as [d|]; simpl.
  - destruct (Href d eq_refl) as [Hds Hdr]. unfold CCDData_subtract.
    rewrite broadcast2_same_shape by (done || congruence). simpl.
    rewrite IH by done. by rewrite <- app_assoc.
  - rewrite IH by done. by rewrite <- app_assoc.
Qed.

Lemma Combiner_ok s first rest :
  Forall (frame s) (first :: rest) →
  Combiner (first :: rest) = Ok (data_arr first (first :: rest)).
Proof.
  intros H. apply Forall_cons_1 in H as [[Hs _] Hrest]. unfold Combiner.
  assert (forallb (λ ccd, bool_decide (shape ccd = shape first)) rest = true) as ->;
    [|done].
  apply forallb_forall. intros ccd Hin. apply bool_decide_eq_true_2.
  rewrite Forall_forall in Hrest. apply list_elem_of_In in Hin.
  destruct (Hrest ccd Hin) as [-> _]. done.
Qed.

Lemma shape_data_arr first ccd_list :
  Forall (λ ccd, shape ccd = shape first) ccd_list →
  shape (data_arr first ccd_list) = shape first.
Proof.
  unfold data_arr. induction 1 as [|ccd l Hs _ IH]; simpl.
  - apply shape_map2d.
  - rewrite shape_zip_with; congruence.
Qed.

Lemma pixel_data_arr first ccd_list i j xs :
  is_Some (pixel first i j) →
  Forall2 (λ ccd x, pixel ccd i j = Some x) ccd_list xs →
  pixel (data_arr first ccd_list) i j = Some xs.
Proof.
  intros [x0 Hfirst]. unfold data_arr.
  induction 1 as [|ccd x l xs Hx _ IH]; simpl.
  - by rewrite pixel_map2d, Hfirst.
  - by apply pixel_zip_with.
Qed.

Lemma pixel_subtract_reference reference img i j x :
  calibrated_sample reference img i j = Some x →
  pixel (subtract_reference reference img) i j = Some x.
Proof.
  unfold calibrated_sample. destruct (pixel img i j) as [a|] eqn:Ha; [|done].
  destruct reference as [d|]; simpl; [|by intros [= <-]].
  destruct (pixel d i j) as [r|] eqn:Hr; [|done].
  intros [= <-]. by apply pixel_zip_with.
Qed.

(** What [load_and_combine] computes on readable frames of one shape. *)
Lemma load_and_combine_frames fs files imgs reference s first rest :
  Forall2 (λ file img, fs !! file = Some img) files imgs →
  Forall (frame s) imgs → reference_frame s reference →
  subtract_reference reference <$> imgs = first :: rest →
  load_and_combine fs files "average" reference
    = Ok (map2d mean (data_arr first (first :: rest)))
  ∧ load_and_combine fs files "median" reference
    = Ok (map2d median (data_arr first (first :: rest))).
Proof.
  intros Hread Himgs Href Heq. unfold load_and_combine.
  rewrite (read_frames_ok _ _ imgs _ s) by done. simpl. rewrite Heq.
  assert (Forall (frame s) (first :: rest)) as Hfr.
  { rewrite <- Heq. apply Forall_fmap. eapply Forall_impl; [exact Himgs|].
    intros img Himg. simpl. by apply frame_subtract_reference. }
  rewrite (Combiner_ok s) by done. done.
Qed.

(** C2: on a non-empty list of readable frames of one shape, with or
    without a reference frame of that shape, [load_and_combine] returns a
    master frame of that shape whose pixel at every position is the mean
    (method 'average') or the median (method 'median') of the samples of
    the frames at that position, each taken after the subtraction of the
    reference; the two flats of the scenario give [[101, 99, 100]] under
    both methods. *)
Theorem load_and_combine_pixelwise :
  (∀ fs files imgs reference s,
     imgs ≠ [] →
     Forall2 (λ file img, fs !! file = Some img) files imgs →
     Forall (frame s) imgs → reference_frame s reference →
     ∃ avg med,
       load_and_combine fs files "average" reference = Ok avg
       ∧ load_and_combine fs files "median" reference = Ok med
       ∧ shape avg = s ∧ shape med = s
       ∧ ∀ i j xs,
           Forall2 (λ img x, calibrated_sample reference img i j = Some x) imgs xs →
           pixel avg i j = Some (mean xs) ∧ pixel med i j = Some (median xs))
  ∧ load_and_combine two_flats ["a.fit"; "b.fit"] "average" None
    = Ok [[px 101; px 99; px 100]]
  ∧ load_and_combine two_flats ["a.fit"; "b.fit"] "median" None
    = Ok [[px 101; px 99; px 100]].
Proof.
  split; [|split; by_evaluation].
  intros fs files imgs reference s Hne Hread Himgs Href.
  destruct (subtract_reference reference <$> imgs) as [|first rest] eqn:Heq.
  { apply fmap_nil_inv in Heq. done. }
  destruct (load_and_combine_frames fs files imgs reference s first rest)
    as [Havg Hmed]; try done.
  assert (Forall (frame s) (first :: rest)) as Hfr.
  { rewrite <- Heq. apply Forall_fmap. eapply Forall_impl; [exact Himgs|].
    intros img Himg. simpl. by apply frame_subtract_reference. }
  assert (shape first = s) as Hsf.
  { by apply Forall_cons_1 in Hfr as [[? _] _]. }
  assert (shape (data_arr first (first :: rest)) = s) as Hshape.
  { rewrite shape_data_arr; [done|].
    eapply Forall_impl; [exact Hfr|]. intros ccd [Hc _]. congruence. }
  eexists _, _. split; [exact Havg|]. split; [exact Hmed|].
  rewrite !shape_map2d. split; [done|]. split; [done|].
  intros i j xs Hxs.
  assert (pixel (data_arr first (first :: rest)) i j = Some xs) as Hpix.
  { assert (Forall2 (λ ccd x, pixel ccd i j = Some x) (first :: rest) xs) as H2.
    { rewrite <- Heq. apply Forall2_fmap_l. eapply Forall2_impl; [exact Hxs|].
      intros img x. apply pixel_subtract_reference. }
    apply pixel_data_arr; [|done].
    inversion H2; subst. eauto. }
  rewrite !pixel_map2d, Hpix. done.
Qed.

(** ** Order of the frames *)

Lemma np_sum_Permutation (l k : list Qc) : l ≡ₚ k → np_sum l = np_sum k.
Proof.
  unfold np_sum. generalize (Q2Qc 0) as acc. intros acc Hp. revert acc.
  induction Hp as [|x l k _ IH|x y l|l m k _ IH1 _ IH2]; intros acc; simpl.
  - done.
  - apply IH.
  - f_equal. ring.
  - by rewrite IH1.
Qed.

Lemma mean_Permutation (l k : list Qc) : l ≡ₚ k → mean l = mean k.
Proof.
  intros Hp. unfold mean.
  by rewrite (np_sum_Permutation l k Hp), (Permutation_length Hp).
Qed.

Lemma merge_sort_Permutation_eq (l k : list Qc) :
  l ≡ₚ k → merge_sort Qcle l = merge_sort Qcle k.
Proof.
  intros Hp. apply (Sorted_unique Qcle).
  - apply (Sorted_merge_sort Qcle).
  - apply (Sorted_merge_sort Qcle).
  - by rewrite !merge_sort_Permutation.
Qed.

Lemma median_Permutation (l k : list Qc) : l ≡ₚ k → median l = median k.
Proof.
  intros Hp. unfold median. by rewrite (merge_sort_Permutation_eq l k Hp).
Qed.

Lemma zip_cons_skip (x : list Qc) (acc acc' : list (list Qc)) :
  Forall2 (≡ₚ) acc acc' →
  Forall2 (≡ₚ) (zip_with cons x acc) (zip_with cons x acc').
Proof.
  intros H. revert x.
  induction H as [|c c' acc acc' Hc _ IH]; intros [|a x]; simpl; constructor.
  - by constructor.
  - apply IH.
Qed.

Lemma zip_cons_swap (x y : list Qc) (acc : list (list Qc)) :
  Forall2 (≡ₚ) (zip_with cons x (zip_with cons y acc))
               (zip_with cons y (zip_with cons x acc)).
Proof.
  revert x y. induction acc as [|c acc IH]; intros [|a x] [|b y]; simpl;
    try constructor.
  - apply perm_swap.
  - apply IH.
Qed.

Lemma zip_rows_skip (x : image) (acc acc' : ndarray (list Qc)) :
  Forall2 (Forall2 (≡ₚ)) acc acc' →
  Forall2 (Forall2 (≡ₚ)) (zip_with (zip_with cons) x acc)
                          (zip_with (zip_with cons) x acc').
Proof.
  intros H. revert x.
  induction H as [|c c' acc acc' Hc _ IH]; intros [|a x]; simpl; constructor.
  - by apply zip_cons_skip.
  - apply IH.
Qed.

Lemma zip_rows_swap (x y : image) (acc : ndarray (list Qc)) :
  Forall2 (Forall2 (≡ₚ))
    (zip_with (zip_with cons) x (zip_with (zip_with cons) y acc))
    (zip_with (zip_with cons) y (zip_with (zip_with cons) x acc)).
Proof.
  revert x y. induction acc as [|c acc IH]; intros [|a x] [|b y]; simpl;
    try constructor.
  - apply zip_cons_swap.
  - apply IH.
Qed.

(** Reordering the frames reorders the samples of every cell. *)
Lemma data_arr_Permutation first (l k : list image) :
  l ≡ₚ k → Forall2 (Forall2 (≡ₚ)) (data_arr first l) (data_arr first k).
Proof.
  unfold data_arr.
  induction 1 as [|x l k _ IH|x y l|l m k _ IH1 _ IH2]; simpl.
  - reflexivity.
  - by apply zip_rows_skip.
  - apply zip_rows_swap.
  - by etrans.
Qed.

Lemma map2d_const_rectangular {A B} (b : B) (a : ndarray A) :
  rectangular a →
  map2d (λ _, b) a = replicate (length a) (replicate (ncols a) b).
Proof.
  unfold rectangular. generalize (ncols a). intros c H.
  induction H as [|row a Hrow _ IH]; simpl; [done|].
  rewrite <- IH. f_equal. rewrite <- Hrow. clear.
  induction row; simpl; by f_equal.
Qed.

(** The empty stack depends on the shape of the first frame only. *)
Lemma data_arr_first first first' (l : list image) :
  shape first = shape first' → rectangular first → rectangular first' →
  data_arr first l = data_arr first' l.
Proof.
  intros [= Hr Hc] H H'. unfold data_arr.
  by rewrite !map2d_const_rectangular, Hr, Hc.
Qed.

Lemma map2d_respects {A B} (R : relation A) (g : A → B) (a a' : ndarray A) :
  (∀ x y, R x y → g x = g y) →
  Forall2 (Forall2 R) a a' → map2d g a = map2d g a'.
Proof.
  intros Hg. unfold map2d.
  induction 1 as [|row row' a a' Hrow _ IH]; [done|].
  rewrite !fmap_cons, IH. f_equal.
  induction Hrow as [|x y row row' Hxy _ IHrow]; [done|].
  by rewrite !fmap_cons, (Hg x y Hxy), IHrow.
Qed.

(** With exact sums the order of the files changes neither the mean nor
    the median of a stack. *)
Lemma exact_combine_permutation fs files files' imgs reference s method :
  imgs ≠ [] →
  Forall2 (λ file img, fs !! file = Some img) files imgs →
  Forall (frame s) imgs → reference_frame s reference →
  files ≡ₚ files' →
  method = "average" ∨ method = "median" →
  ∃ master,
    load_and_combine fs files method reference = Ok master
    ∧ load_and_combine fs files' method reference = Ok master.
Proof.
  intros Hne Hread Himgs Href Hperm Hmethod.
  destruct (Permutation_Forall2 Hperm Hread) as (imgs' & Hperm' & Hread').
  assert (Forall (frame s) imgs') as Himgs' by by rewrite <- Hperm'.
  pose proof (fmap_Permutation (subtract_reference reference) _ _ Hperm') as Hsub.
  destruct (subtract_reference reference <$> imgs) as [|first rest] eqn:Heq.
  { apply fmap_nil_inv in Heq. done. }
  destruct (subtract_reference reference <$> imgs') as [|first' rest'] eqn:Heq'.
  { by apply Permutation_nil_r in Hsub. }
  destruct (load_and_combine_frames fs files imgs reference s first rest)
    as [Havg Hmed]; try done.
  destruct (load_and_combine_frames fs files' imgs' reference s first' rest')
    as [Havg' Hmed']; try done.
  assert (Forall (frame s) (first :: rest)) as Hfr.
  { rewrite <- Heq. apply Forall_fmap. eapply Forall_impl; [exact Himgs|].
    intros img Himg. simpl. by apply frame_subtract_reference. }
  assert (Forall (frame s) (first' :: rest')) as Hfr' by by rewrite <- Hsub.
  apply Forall_cons_1 in Hfr as [[Hs Hrect] _].
  apply Forall_cons_1 in Hfr' as [[Hs' Hrect'] _].
  assert (Forall2 (Forall2 (≡ₚ)) (data_arr first (first :: rest))
                                  (data_arr first' (first' :: rest'))) as Hcells.
  { rewrite (data_arr_first first first') by (done || congruence).
    by apply data_arr_Permutation. }
  destruct Hmethod as [-> | ->]; eexists; (split; [eassumption|]).
  - rewrite Havg'. f_equal. symmetry.
    eapply map2d_respects; [|exact Hcells]. apply mean_Permutation.
  - rewrite Hmed'. f_equal. symmetry.
    eapply map2d_respects; [|exact Hcells]. apply median_Permutation.
Qed.

(** Rounded sums.  The binary64 addition is commutative, so a sum of two
    samples does not depend on their order; it is not associative, so a
    sum of three can. *)
Lemma SFadd_comm prec emax x y :
  SpecFloat.SFadd prec emax x y = SpecFloat.SFadd prec emax y x.
Proof.
  destruct x as [sx|sx| |sx mx ex], y as [sy|sy| |sy my ey];
    try reflexivity; try (by destruct sx, sy).
  unfold SpecFloat.SFadd. cbv zeta.
  rewrite (Z.min_comm ex ey). f_equal. apply Z.add_comm.
Qed.

Lemma SFadd_zero_pair prec emax x y :
  SpecFloat.SFadd prec emax
    (SpecFloat.SFadd prec emax (SpecFloat.S754_zero false) x) y
  = SpecFloat.SFadd prec emax
      (SpecFloat.SFadd prec emax (SpecFloat.S754_zero false) y) x.
Proof.
  destruct x as [sx|sx| |sx mx ex], y as [sy|sy| |sy my ey];
    try reflexivity; try (by destruct sx); try (by destruct sy);
    try (by destruct sx, sy).
  apply SFadd_comm.
Qed.

Lemma np_sum64_pair (x y : float) : np_sum64 [x; y] = np_sum64 [y; x].
Proof.
  unfold np_sum64. cbn [foldl]. apply FloatAxioms.Prim2SF_inj.
  rewrite !FloatAxioms.add_spec. apply SFadd_zero_pair.
Qed.

Lemma mean64_pair (x y : float) : mean64 [x; y] = mean64 [y; x].
Proof. unfold mean64. by rewrite np_sum64_pair. Qed.

Lemma average_row_pair (ra rb : list float) :
  mean64 <$> zip_with cons ra (zip_with cons rb ((λ _, []) <$> ra))
  = mean64 <$> zip_with cons rb (zip_with cons ra ((λ _, []) <$> rb)).
Proof.
  revert rb. induction ra as [|x ra IH]; intros [|y rb]; try done.
  rewrite !fmap_cons. cbn [zip_with]. rewrite !fmap_cons.
  by rewrite mean64_pair, IH.
Qed.

Lemma average_combine64_pair (a b : image64) :
  average_combine64 (data_arr64 a [a; b]) = average_combine64 (data_arr64 b [b; a]).
Proof.
  unfold average_combine64, data_arr64, map2d. cbn [foldr].
  revert b. induction a as [|ra a IH]; intros [|rb b]; try done.
  rewrite !fmap_cons. cbn [zip_with]. rewrite !fmap_cons.
  by rewrite average_row_pair, IH.
Qed.

(** C9 (as the code has it): on a non-empty list of readable frames of
    one shape, the master frame under 'median' is the same for every
    permutation of the list of files, and so is the one under 'average'
    for a list of at most two files; on float64 samples the average of
    two readable frames of one shape is the same in both orders. *)
Theorem load_and_combine_permutation fs files files' imgs reference s method :
  imgs ≠ [] →
  Forall2 (λ file img, fs !! file = Some img) files imgs →
  Forall (frame s) imgs → reference_frame s reference →
  files ≡ₚ files' →
  method = "median" ∨ (method = "average" ∧ (length files ≤ 2)%nat) →
  (∃ master,
     load_and_combine fs files method reference = Ok master
     ∧ load_and_combine fs files' method reference = Ok master)
  ∧ (∀ (fs64 : gmap string image64) file1 file2 a b,
       fs64 !! file1 = Some a → fs64 !! file2 = Some b → shape a = shape b →
       ∃ master,
         load_and_combine64 fs64 [file1; file2] "average" None = Ok master
         ∧ load_and_combine64 fs64 [file2; file1] "average" None = Ok master).
Proof.
  intros Hne Hread Himgs Href Hperm Hmethod. split.
  - apply (exact_combine_permutation fs files files' imgs reference s method);
      try done.
    destruct Hmethod as [->|[-> _]]; auto.
  - intros fs64 file1 file2 a b Ha Hb Hshape.
    unfold load_and_combine64. cbn [read_frames64].
    unfold CCDData_read64, open_file64. rewrite Ha, Hb.
    cbn [mbind result_bind app]. unfold Combiner64. cbn [forallb].
    rewrite !bool_decide_eq_true_2 by done.
    cbn [andb mbind result_bind String.eqb Ascii.eqb Bool.eqb].
    eexists. split; [reflexivity|]. f_equal. symmetry.
    apply average_combine64_pair.
Qed.

(** C9 fails as stated: on float64 samples the sum of a stack is taken
    in the order of the list, and the average of the three frames 0.1,
    0.2 and 0.3 is 0.20000000000000004 in that order and
    0.19999999999999998 in the reverse order. *)
Lemma average_depends_on_order :
  ["1.fit"; "2.fit"; "3.fit"] ≡ₚ ["3.fit"; "2.fit"; "1.fit"]
  ∧ load_and_combine64 tenths ["1.fit"; "2.fit"; "3.fit"] "average" None
    = Ok [[0x1.999999999999bp-3%float]]
  ∧ load_and_combine64 tenths ["3.fit"; "2.fit"; "1.fit"] "average" None
    = Ok [[0x1.9999999999999p-3%float]]
  ∧ PrimFloat.ltb 0x1.9999999999999p-3 0x1.999999999999bp-3 = true.
Proof.
  split; [exact (Permutation_rev ["1.fit"; "2.fit"; "3.fit"])|].
  split; [by vm_compute|]. split; by vm_compute.
Qed.

(** ** Shapes that differ *)

Lemma broadcast2_incompatible {A B C} (f : A → B → C) (a : ndarray A) (b : ndarray B) :
  compatible (shape a) (shape b) = false →
  broadcast2 f a b = Raise broadcast_error.
Proof.
  unfold compatible, shape, broadcast2. simpl.
  destruct (broadcast_dim (length a) (length b)) as [r|]; [|done].
  destruct (broadcast_dim (ncols a) (ncols b)) as [c|]; [|done].
  rewrite !bool_decide_eq_true_2 by eauto. done.
Qed.

Lemma broadcast2_compatible {A B C} (f : A → B → C) (a : ndarray A) (b : ndarray B) :
  compatible (shape a) (shape b) = true →
  ∃ c, broadcast2 f a b = Ok c.
Proof.
  unfold compatible, shape, broadcast2. simpl. intros H.
  apply andb_true_iff in H as [Hr Hc].
  apply bool_decide_eq_true_1 in Hr as [r ->].
  apply bool_decide_eq_true_1 in Hc as [c ->]. eauto.
Qed.

Lemma read_frames_no_reference fs files imgs acc :
  Forall2 (λ file img, fs !! file = Some img) files imgs →
  read_frames fs files None acc = Ok (acc ++ imgs).
Proof.
  intros Hread. revert acc.
  induction Hread as [|file img files imgs Hfile _ IH]; intros acc; simpl.
  { by rewrite app_nil_r. }
  unfold CCDData_read, open_file. rewrite Hfile. simpl.
  rewrite IH. by rewrite <- app_assoc.
Qed.

Lemma read_frames_incompatible fs files imgs d acc :
  Forall2 (λ file img, fs !! file = Some img) files imgs →
  Exists (λ img, compatible (shape img) (shape d) = false) imgs →
  read_frames fs files (Some d) acc = Raise broadcast_error.
Proof.
  intros Hread. revert acc.
  induction Hread as [|file img files imgs Hfile _ IH]; intros acc Hex; simpl.
  { by apply Exists_nil in Hex. }
  unfold CCDData_read, open_file. rewrite Hfile. simpl. unfold CCDData_subtract.
  destruct (compatible (shape img) (shape d)) eqn:Hc.
  - destruct (broadcast2_compatible Qcminus img d Hc) as [c ->]. simpl.
    apply IH. apply Exists_cons in Hex as [Hex|Hex]; [congruence|done].
  - by rewrite broadcast2_incompatible.
Qed.

Lemma read_frames_loadable fs files reference acc :
  Forall (loadable fs reference) files →
  ∃ ccd_list, read_frames fs files reference acc = Ok ccd_list.
Proof.
  intros H. revert acc.
  induction H as [|file files (img & Hfile & Hc) _ IH]; intros acc; simpl; [eauto|].
  unfold CCDData_read, open_file. rewrite Hfile. cbn [mbind result_bind].
  destruct reference as [d|].
  - destruct (broadcast2_compatible Qcminus img d (Hc d eq_refl)) as [c Hsub].
    unfold CCDData_subtract. rewrite Hsub. cbn [mbind result_bind]. apply IH.
  - cbn [mbind result_bind]. apply IH.
Qed.

Lemma Combiner_shapes_differ (ccd_list : list image) :
  (∃ a b, a ∈ ccd_list ∧ b ∈ ccd_list ∧ shape a ≠ shape b) →
  Combiner ccd_list = Raise (TypeError "CCDData objects are not the same size.").
Proof.
  intros (a & b & Ha & Hb & Hne). destruct ccd_list as [|first rest].
  { by apply elem_of_nil in Ha. }
  unfold Combiner.
  destruct (forallb _ rest) eqn:Hall; [|done]. exfalso.
  assert (∀ c, c ∈ first :: rest → shape c = shape first) as Hsame.
  { intros c [->|Hc]%elem_of_cons; [done|].
    rewrite forallb_forall in Hall. apply list_elem_of_In in Hc.
    by apply Hall, bool_decide_eq_true_1 in Hc. }
  apply Hne. by rewrite (Hsame a), (Hsame b).
Qed.

Lemma length_stretch_l {A} (n m r : nat) (l : list A) :
  length l = n → broadcast_dim n m = Some r → length (stretch r l) = r.
Proof.
  unfold broadcast_dim, stretch. intros <-.
  destruct l as [|x [|y l]]; simpl; repeat case_decide; intros [= <-];
    simpl; rewrite ?length_replicate; done || lia.
Qed.

Lemma length_stretch_r {A} (n m r : nat) (l : list A) :
  length l = m → broadcast_dim n m = Some r → length (stretch r l) = r.
Proof.
  unfold broadcast_dim, stretch. intros <-.
  destruct l as [|x [|y l]]; simpl; repeat case_decide; intros [= <-];
    simpl; rewrite ?length_replicate; done || lia.
Qed.

Lemma head_stretch {A} (r : nat) (x : A) (l : list A) :
  (0 < r)%nat → head (stretch r (x :: l)) = Some x.
Proof.
  intros Hr. unfold stretch. destruct l; [|done]. destruct r; [lia|done].
Qed.

Lemma broadcast_dim_pos (n m r : nat) :
  broadcast_dim n m = Some r → (0 < r)%nat → (0 < n)%nat ∧ (0 < m)%nat.
Proof.
  unfold broadcast_dim. repeat case_decide; intros [= <-]; lia.
Qed.

(** The shape of a result depends on the shapes of the operands only. *)
Lemma shape_broadcast2 {A B C} (f : A → B → C) (a : ndarray A) (b : ndarray B) c :
  broadcast2 f a b = Ok c → shape c = broadcast_shape (shape a) (shape b).
Proof.
  unfold broadcast2, broadcast_shape, shape. cbn [fst snd].
  destruct (broadcast_dim (length a) (length b)) as [r|] eqn:Hr; [|done].
  destruct (broadcast_dim (ncols a) (ncols b)) as [k|] eqn:Hk; [|done].
  intros [= <-].
  assert (length (broadcast_to r k a) = r) as Ha.
  { unfold broadcast_to.
    apply (length_stretch_l (length a) (length b)); [by rewrite length_fmap|done]. }
  assert (length (broadcast_to r k b) = r) as Hb.
  { unfold broadcast_to.
    apply (length_stretch_r (length a) (length b)); [by rewrite length_fmap|done]. }
  f_equal.
  { rewrite length_zip_with. lia. }
  case_decide as Hr0.
  { subst r. destruct (broadcast_to 0 k a); [done|]. done. }
  destruct (broadcast_dim_pos _ _ _ Hr) as [Hla Hlb]; [lia|].
  destruct a as [|a0 a]; [simpl in Hla; lia|].
  destruct b as [|b0 b]; [simpl in Hlb; lia|].
  unfold broadcast_to in *. rewrite !fmap_cons in *.
  pose proof (head_stretch r (stretch k a0) (stretch k <$> a)) as Hha.
  pose proof (head_stretch r (stretch k b0) (stretch k <$> b)) as Hhb.
  destruct (stretch r (stretch k a0 :: _)) as [|x ta]; [simpl in Ha; lia|].
  destruct (stretch r (stretch k b0 :: _)) as [|y tb]; [simpl in Hb; lia|].
  simpl in Hha, Hhb. injection Hha; [|lia]. injection Hhb; [|lia].
  intros -> ->. cbn [zip_with ncols]. rewrite length_zip_with.
  simpl in Hk.
  rewrite (length_stretch_l (length a0) (length b0)) by done.
  rewrite (length_stretch_r (length a0) (length b0)) by done. lia.
Qed.

Lemma read_frames_same_shape fs files imgs reference s acc :
  Forall2 (λ file img, fs !! file = Some img) files imgs →
  Forall (λ img, shape img = s) imgs →
  (∀ d, reference = Some d → compatible s (shape d) = true) →
  ∃ ccd_list,
    read_frames fs files reference acc = Ok (acc ++ ccd_list)
    ∧ length ccd_list = length files
    ∧ Forall (λ ccd, shape ccd = subtracted_shape s reference) ccd_list.
Proof.
  intros Hread. revert acc.
  induction Hread as [|file img files imgs Hfile _ IH]; intros acc Hs Hc.
  { exists []. by rewrite app_nil_r. }
  apply Forall_cons_1 in Hs as [Hs Hrest]. cbn [read_frames].
  unfold CCDData_read, open_file. rewrite Hfile. cbn [mbind result_bind].
  destruct reference as [d|].
  - assert (compatible (shape img) (shape d) = true) as Hcd
      by (rewrite Hs; by apply Hc).
    destruct (broadcast2_compatible Qcminus img d Hcd) as [c Hsub].
    unfold CCDData_subtract. rewrite Hsub. cbn [mbind result_bind].
    destruct (IH (acc ++ [c]) Hrest Hc) as (l & -> & Hlen & Hl).
    exists (c :: l). rewrite <- app_assoc. split; [done|].
    split; [simpl; by rewrite Hlen|]. constructor; [|done].
    simpl. rewrite <- Hs. by apply (shape_broadcast2 Qcminus).
  - cbn [mbind result_bind].
    destruct (IH (acc ++ [img]) Hrest Hc) as (l & -> & Hlen & Hl).
    exists (img :: l). rewrite <- app_assoc. split; [done|].
    split; [simpl; by rewrite Hlen|]. by constructor.
Qed.

Lemma Forall_same_shape (t : nat * nat) (l : list image) :
  Forall (λ ccd, shape ccd = t) l →
  ∀ a b, a ∈ l → b ∈ l → shape a = shape b.
Proof.
  intros Hl a b Ha Hb. rewrite Forall_forall in Hl.
  by rewrite (Hl a Ha), (Hl b Hb).
Qed.

Lemma Combiner_same_shape (ccd_list : list image) :
  ccd_list ≠ [] →
  (∀ a b, a ∈ ccd_list → b ∈ ccd_list → shape a = shape b) →
  ∃ combiner, Combiner ccd_list = Ok combiner.
Proof.
  intros Hne Hsame. destruct ccd_list as [|first rest]; [done|].
  unfold Combiner.
  assert (forallb (λ ccd, bool_decide (shape ccd = shape first)) rest = true) as ->;
    [|eauto].
  apply forallb_forall. intros ccd Hin. apply bool_decide_eq_true_2.
  apply list_elem_of_In in Hin. apply Hsame; [by right|by left].
Qed.

Lemma load_and_combine_same_shape fs files method reference ccd_list :
  read_frames fs files reference [] = Ok ccd_list →
  ccd_list ≠ [] →
  (∀ a b, a ∈ ccd_list → b ∈ ccd_list → shape a = shape b) →
  method = "average" ∨ method = "median" →
  ∃ master, load_and_combine fs files method reference = Ok master.
Proof.
  intros Hread Hne Hsame Hmethod. unfold load_and_combine. rewrite Hread.
  cbn [mbind result_bind].
  destruct (Combiner_same_shape ccd_list Hne Hsame) as [combiner ->].
  cbn [mbind result_bind]. destruct Hmethod as [-> | ->]; simpl; eauto.
Qed.

(** C8 (as the code has it): [load_and_combine] raises, and returns no
    frame, when the list of files is empty, when two frames differ in
    shape once the reference, if any, is subtracted (so when two images
    differ in shape and no reference is given), or when the shape of an
    image and the shape of the reference are not compatible under
    numpy's broadcasting rule; the applier raises when the shapes of its
    operands are not compatible under that rule.  Shapes cause no other
    failure: files that exist and are compatible with the reference are
    read and subtracted; frames of one shape, at least one, are combined
    under 'average' and 'median', so images of one shape with a
    reference compatible with that shape give a master frame; the
    applier returns an array when the raw image is compatible with the
    dark master and their difference with the flat master. *)
Theorem shape_mismatch_raises :
  (∀ fs method reference,
     load_and_combine fs [] method reference
     = Raise (TypeError "can only concatenate tuple (not NoneType) to tuple"))
  ∧ (∀ fs files method reference ccd_list,
       read_frames fs files reference [] = Ok ccd_list →
       (∃ a b, a ∈ ccd_list ∧ b ∈ ccd_list ∧ shape a ≠ shape b) →
       load_and_combine fs files method reference
       = Raise (TypeError "CCDData objects are not the same size."))
  ∧ (∀ fs files imgs method,
       Forall2 (λ file img, fs !! file = Some img) files imgs →
       (∃ a b, a ∈ imgs ∧ b ∈ imgs ∧ shape a ≠ shape b) →
       load_and_combine fs files method None
       = Raise (TypeError "CCDData objects are not the same size."))
  ∧ (∀ fs files imgs method d,
       Forall2 (λ file img, fs !! file = Some img) files imgs →
       Exists (λ img, compatible (shape img) (shape d) = false) imgs →
       load_and_combine fs files method (Some d) = Raise broadcast_error)
  ∧ (∀ raw dark flat,
       compatible (shape raw) (shape dark) = false →
       corrected_image raw dark flat = Raise broadcast_error)
  ∧ (∀ raw dark flat minus_dark,
       target_minus_dark raw dark = Ok minus_dark →
       compatible (shape minus_dark) (shape flat) = false →
       corrected_image raw dark flat = Raise broadcast_error)
  ∧ (∀ fs files reference,
       Forall (loadable fs reference) files →
       ∃ ccd_list, read_frames fs files reference [] = Ok ccd_list)
  ∧ (∀ fs files method reference ccd_list,
       read_frames fs files reference [] = Ok ccd_list →
       ccd_list ≠ [] →
       (∀ a b, a ∈ ccd_list → b ∈ ccd_list → shape a = shape b) →
       method = "average" ∨ method = "median" →
       ∃ master, load_and_combine fs files method reference = Ok master)
  ∧ (∀ fs files imgs method reference s,
       files ≠ [] →
       Forall2 (λ file img, fs !! file = Some img) files imgs →
       Forall (λ img, shape img = s) imgs →
       (∀ d, reference = Some d → compatible s (shape d) = true) →
       method = "average" ∨ method = "median" →
       ∃ master, load_and_combine fs files method reference = Ok master)
  ∧ (∀ raw dark,
       compatible (shape raw) (shape dark) = true →
       ∃ minus_dark,
         target_minus_dark raw dark = Ok minus_dark
         ∧ shape minus_dark = broadcast_shape (shape raw) (shape dark))
  ∧ (∀ raw dark flat minus_dark,
       target_minus_dark raw dark = Ok minus_dark →
       compatible (shape minus_dark) (shape flat) = true →
       ∃ corrected, corrected_image raw dark flat = Ok corrected).
Proof.
  split; [done|].
  split; [|split; [|split; [|split; [|split; [|split; [|split; [|split; [|split]]]]]]]].
  - intros fs files method reference ccd_list Hread Hdiff.
    unfold load_and_combine. rewrite Hread. simpl.
    by rewrite Combiner_shapes_differ.
  - intros fs files imgs method Hread Hdiff. unfold load_and_combine.
    rewrite (read_frames_no_reference _ _ imgs) by done. simpl.
    by rewrite Combiner_shapes_differ.
  - intros fs files imgs method d Hread Hex. unfold load_and_combine.
    by rewrite (read_frames_incompatible _ _ imgs).
  - intros raw dark flat Hc. unfold corrected_image, target_minus_dark.
    by rewrite broadcast2_incompatible.
  - intros raw dark flat tmd Htmd Hc. unfold corrected_image.
    rewrite Htmd. simpl. apply broadcast2_incompatible.
    unfold combined_flat_normalized. by rewrite shape_map2d.
  - intros fs files reference Hfiles. by apply read_frames_loadable.
  - apply load_and_combine_same_shape.
  - intros fs files imgs method reference s Hne Hread Hs Hc Hmethod.
    destruct (read_frames_same_shape fs files imgs reference s [] Hread Hs Hc)
      as (ccd_list & Hccd & Hlen & Hshapes).
    apply (load_and_combine_same_shape fs files method reference ccd_list);
      [done| |exact (Forall_same_shape _ _ Hshapes)|done].
    intros ->. by destruct files.
  - intros raw dark Hc. unfold target_minus_dark.
    destruct (broadcast2_compatible Qcminus raw dark Hc) as [c Hsub].
    exists c. split; [done|]. by apply (shape_broadcast2 Qcminus).
  - intros raw dark flat tmd Htmd Hc. unfold corrected_image.
    rewrite Htmd. cbn [mbind result_bind]. apply broadcast2_compatible.
    unfold combined_flat_normalized. by rewrite shape_map2d.
Qed.

(** C8 fails as stated: a dark master of one row is broadcast over a raw
    image of two rows, and a reference of one row over flats of two rows;
    both calls return a result. *)
Lemma shape_mismatch_broadcast :
  shape [[px 50; px 60]; [px 70; px 80]] ≠ shape [[px 10; px 20]]
  ∧ corrected_image [[px 50; px 60]; [px 70; px 80]] [[px 10; px 20]]
                    [[px 5; px 5]; [px 5; px 5]]
    = Ok [[Fin (px 40); Fin (px 40)]; [Fin (px 60); Fin (px 60)]]
  ∧ load_and_combine (<["f.fit" := [[px 50; px 60]; [px 70; px 80]]]> ∅)
                     ["f.fit"] "average" (Some [[px 10; px 20]])
    = Ok [[px 40; px 40]; [px 60; px 60]].
Proof.
  split; [by vm_compute|]. split; by_evaluation.
Qed.

(** ** A flat that normalizes to zero *)

(** C5 (as the code has it): where the normalized flat is zero the
    corrected pixel is the IEEE quotient by zero, an infinity when
    [raw - dark] is not zero and a NaN when it is; the applier returns the
    array alone, with no placeholder and no count. *)
Theorem zero_flat_pixel_propagates (raw dark flat : image) i j r d f :
  shape raw = shape dark → shape raw = shape flat →
  rectangular raw → rectangular dark → rectangular flat →
  pixel raw i j = Some r → pixel dark i j = Some d → pixel flat i j = Some f →
  fdiv (Fin f) (np_median flat) = Fin 0 →
  ∃ corrected,
    corrected_image raw dark flat = Ok corrected
    ∧ pixel corrected i j = Some (if decide (r - d = 0) then NaN else Inf).
Proof.
  intros Hd Hf Rr Rd Rf Hr Hdk Hfl Hzero. eexists. split.
  { by apply corrected_image_same_shape. }
  rewrite (pixel_zip_with (λ t f, fdiv (Fin t) f) _ _ i j (r - d) (Fin 0)).
  - unfold fdiv. rewrite decide_True by done. by destruct (decide (r - d = 0)).
  - by apply pixel_zip_with.
  - unfold combined_flat_normalized. rewrite pixel_map2d, Hfl. cbn [fmap option_fmap option_map].
    by rewrite Hzero.
Qed.

(** C5 fails as stated: the flat [[0, 5, 5]] normalizes to [[0, 1, 1]] and
    the first corrected pixel is an infinity, returned in the array. *)
Lemma zero_flat_pixel_is_infinite :
  combined_flat_normalized [[px 0; px 5; px 5]] = [[Fin (px 0); Fin (px 1); Fin (px 1)]]
  ∧ corrected_image [[px 50; px 50; px 50]] [[px 10; px 10; px 10]]
                    [[px 0; px 5; px 5]]
    = Ok [[Inf; Fin (px 40); Fin (px 40)]].
Proof. split; by_evaluation. Qed.

(** ** The status loop *)

Lemma extend_nil w : extend w [] = w.
Proof. destruct w. unfold extend. simpl. by rewrite app_nil_r. Qed.

Lemma extend_extend w evs evs' : extend (extend w evs) evs' = extend w (evs ++ evs').
Proof. unfold extend. simpl. by rewrite app_assoc. Qed.

Section StatusLoop.
Variable svc : service.
Variables (session_key : string) (subid : Z).

Lemma check_submission_status_pending n fuel k w :
  (∀ i, (i < n)%nat → pending (status_reply svc (k + i))) →
  check_submission_status svc (n + fuel) k session_key subid w
  = check_submission_status svc fuel (k + n) session_key subid
      (extend w (poll_events session_key subid n)).
Proof.
  revert k w. induction n as [|n IH]; intros k w Hpending.
  { by rewrite Nat.add_0_r, extend_nil. }
  destruct (Hpending 0%nat ltac:(lia)) as (Hok & Hjobs & Hstatus).
  rewrite Nat.add_0_r in Hok, Hjobs, Hstatus.
  change (S n + fuel)%nat with (S (n + fuel)). cbn [check_submission_status].
  unfold mbind, M_bind at 1. simpl.
  rewrite Hok, Hjobs. simpl. rewrite bool_decide_eq_false_2 by done.
  unfold mbind, M_bind at 1. simpl.
  rewrite IH.
  - replace (k + S n)%nat with (S k + n)%nat by lia. f_equal.
    unfold extend, poll_events. simpl. by rewrite <- !app_assoc.
  - intros i Hi. replace (S k + i)%nat with (k + S i)%nat by lia.
    apply Hpending. lia.
Qed.

Lemma check_submission_status_stop fuel k w :
  ¬ pending (status_reply svc k) →
  ∃ out,
    check_submission_status svc (S fuel) k session_key subid w
    = (out, extend w [GetSubmission session_key subid])
    ∧ out ≠ Running.
Proof.
  intros Hnp. cbn [check_submission_status]. unfold mbind, M_bind. simpl.
  fold (extend w [GetSubmission session_key subid]).
  destruct (status_http_ok (status_reply svc k)) eqn:Hok; simpl.
  2:{ eexists. split; [reflexivity|done]. }
  destruct (status_jobs (status_reply svc k)) as [|job jobs] eqn:Hjobs.
  2:{ eexists. split; [reflexivity|done]. }
  destruct (bool_decide _) eqn:Hst.
  { eexists. split; [reflexivity|done]. }
  exfalso. apply Hnp. split; [done|]. split; [done|].
  intros Heq. by rewrite bool_decide_eq_true_2 in Hst.
Qed.
End StatusLoop.



(** C7 (as the code has it): the loop asks every 30 seconds with no bound
    on the wait.  While the responses are pending it is still running
    after any number of iterations; it ends at the first response that is
    not pending and not later. *)
Theorem status_loop_unbounded svc session_key subid n k w :
  (∀ i, (i < n)%nat → pending (status_reply svc (k + i))) →
  check_submission_status svc n k session_key subid w
  = (Running, extend w (poll_events session_key subid n))
  ∧ (¬ pending (status_reply svc (k + n)) →
     ∀ fuel, (n < fuel)%nat →
     ∃ out,
       check_submission_status svc fuel k session_key subid w
       = (out, extend w (poll_events session_key subid n
                          ++ [GetSubmission session_key subid]))
       ∧ out ≠ Running).
Proof.
  intros Hpending. split.
  - replace n with (n + 0)%nat at 1 by lia.
    by rewrite check_submission_status_pending.
  - intros Hnp fuel Hfuel.
    replace fuel with (n + S (fuel - S n))%nat by lia.
    rewrite check_submission_status_pending by done.
    destruct (check_submission_status_stop svc session_key subid
                (fuel - S n) (k + n)
                (extend w (poll_events session_key subid n)) Hnp)
      as (out & Hrun & Hout).
    exists out. by rewrite Hrun, extend_extend.
Qed.

(** C7 fails as stated: against the stalled service the loop is still
    running after every number of iterations. *)
Lemma status_loop_may_not_terminate :
  ¬ (∀ svc : service, ∃ fuel out w',
       check_submission_status svc fuel 0 "s" 1 {| files := ∅; trace := [] |}
       = (out, w') ∧ out ≠ Running).
Proof.
  intros H. destruct (H stalled) as (fuel & out & w' & Hrun & Hout).
  replace fuel with (fuel + 0)%nat in Hrun by lia.
  rewrite check_submission_status_pending in Hrun.
  - simpl in Hrun. by injection Hrun as <- _.
  - intros i _. split; [done|]. split; [done|]. simpl. by intros [=].
Qed.

(** ** Detection with no source *)

(** C4 (the code at an image with no source): when no local maximum
    qualifies, [DAOStarFinder] returns [None], and the next line raises
    [TypeError]; the photometry and the projection are not reached. *)
Theorem no_source_raises np_std find_peaks disk_sum tan_deproject corrected wcs :
  find_peaks (Q2Qc (7 # 2)) (fmul (Fin (Q2Qc (11 # 5))) (np_std corrected))
             corrected = [] →
  DAOStarFinder find_peaks (Q2Qc (7 # 2))
    (fmul (Fin (Q2Qc (11 # 5))) (np_std corrected)) corrected = None
  ∧ measure_stars np_std find_peaks disk_sum tan_deproject corrected wcs
    = Raise (TypeError "'NoneType' object is not subscriptable").
Proof.
  intros Hnone. unfold measure_stars, DAOStarFinder. by rewrite Hnone.
Qed.

(** ** The reference pixel *)

Lemma make_wcs_cdelt cal :
  cal_pixscale cal ≠ 0 →
  (cdelt (make_wcs cal)).1 ≠ 0 ∧ (cdelt (make_wcs cal)).2 ≠ 0.
Proof.
  intros Hscale. simpl.
  assert (cal_pixscale cal / px 3600 ≠ 0) as H; [|done].
  unfold Qcdiv. intros [H|H]%Qcmult_integral; [done|].
  revert H. by vm_compute.
Qed.

Lemma all_pix2world_ok tan_deproject wcs positions origin :
  (cdelt wcs).1 ≠ 0 → (cdelt wcs).2 ≠ 0 →
  - px 90 ≤ (crval wcs).2 → (crval wcs).2 ≤ px 90 →
  all_pix2world tan_deproject wcs positions origin
  = Ok (pix2world tan_deproject wcs origin <$> positions).
Proof.
  intros H1 H2 Hlo Hhi. unfold all_pix2world.
  rewrite (bool_decide_eq_false_2 (_ ∨ _)).
  - rewrite andb_false_r. rewrite bool_decide_eq_false_2; [done|]. by intros [|].
  - intros [H|H]; [by apply Qcle_not_lt in Hlo|by apply Qcle_not_lt in Hhi].
Qed.




(** The first pixel of the image, (0, 0) counted from 0, is one pixel
    away from the reference pixel on both axes. *)
Lemma first_pixel_off_reference tan_deproject cal :
  cal_pixscale cal ≠ 0 →
  pix2world tan_deproject (make_wcs cal) 0 (0, 0)
  = tan_deproject (cal_ra cal, cal_dec cal)
      (cal_pixscale cal / px 3600, cal_pixscale cal / px 3600).
Proof.
  intros Hscale. destruct (make_wcs_cdelt cal Hscale) as [H1 H2].
  unfold pix2world. rewrite bool_decide_eq_true_2 by done.
  simpl in *.
  assert (cal_pixscale cal / px 3600 * (0 + (1 - 0) - 0)
          = cal_pixscale cal / px 3600) as -> by ring.
  rewrite bool_decide_eq_false_2; [done|]. by intros [? _].
Qed.



(** ** What is uploaded *)

Lemma uploads_app t t' : uploads (t ++ t') = uploads t ++ uploads t'.
Proof. apply omap_app. Qed.

Lemma elem_of_uploads t session_key body :
  PostUpload session_key body ∈ t → body ∈ uploads t.
Proof.
  intros H. unfold uploads. apply list_elem_of_omap.
  exists (PostUpload session_key body). done.
Qed.

Lemma check_submission_status_world svc fuel k session_key subid w out w' :
  check_submission_status svc fuel k session_key subid w = (out, w') →
  files w' = files w ∧ uploads (trace w') = uploads (trace w).
Proof.
  revert k w. induction fuel as [|fuel IH]; intros k w; simpl.
  { by intros [= <- <-]. }
  unfold mbind, M_bind at 1. simpl.
  destruct (status_http_ok (status_reply svc k)); simpl.
  2:{ intros [= <- <-]. simpl. by rewrite uploads_app, app_nil_r. }
  destruct (status_jobs (status_reply svc k)).
  2:{ intros [= <- <-]. simpl. by rewrite uploads_app, app_nil_r. }
  destruct (bool_decide _).
  { intros [= <- <-]. simpl. by rewrite uploads_app, app_nil_r. }
  unfold mbind, M_bind at 1. simpl. intros H.
  apply IH in H as [-> ->]. simpl.
  by rewrite !uploads_app, !app_nil_r.
Qed.

Section Triples.
Context {A B : Type}.
Implicit Types (P : world → Prop) (E : world → Prop).

Lemma triple_bind P (m : M A) (f : A → M B) Q R E :
  triple P m Q E → (∀ a, triple (Q a) (f a) R E) →
  triple P (m ≫= f) R E.
Proof.
  intros Hm Hf w HP. specialize (Hm w HP). unfold mbind, M_bind.
  destruct (m w) as [[a| |] w1]; [|done..]. by apply Hf.
Qed.

Lemma triple_ret P (a : A) (Q : A → world → Prop) E :
  (∀ w, P w → Q a w) → triple P (mret a) Q E.
Proof. intros H w HP. by apply H. Qed.

Lemma triple_raise P e (Q : A → world → Prop) E :
  (∀ w, P w → E w) → triple P (raise e) Q E.
Proof. intros H w HP. by apply H. Qed.

Lemma triple_lift P (r : result A) E :
  (∀ w, P w → E w) →
  triple P (lift r) (λ a w, r = Ok a ∧ P w) E.
Proof. intros H w HP. destruct r; simpl; auto. Qed.

Lemma triple_weaken P (m : M A) (Q Q' : A → world → Prop) E :
  triple P m Q E → (∀ a w, Q a w → Q' a w) → triple P m Q' E.
Proof.
  intros Hm HQ w HP. specialize (Hm w HP).
  destruct (m w) as [[a| |] w1]; auto.
Qed.
End Triples.

Section Upload.
Variable np_std : ndarray fval → fval.
Variable find_peaks : Qc → fval → ndarray fval → list star.
Variable disk_sum : ndarray fval → Qc → Qc * Qc → fval.
Variable tan_deproject : Qc * Qc → Qc * Qc → Qc * Qc.
Variable svc : service.
Variable key : string.
Variable fs : gmap string image.

Lemma clean_upload_ok w : (clean fs) w → (upload_ok fs) w.
Proof. intros [_ H]. by left. Qed.

Lemma written_upload_ok raw w : (written fs) raw w → (upload_ok fs) w.
Proof. intros (_ & _ & H). by left. Qed.

Lemma uploaded_upload_ok raw w : (uploaded fs) raw w → (upload_ok fs) w.
Proof. intros H. right. eauto. Qed.

Lemma triple_login api_key :
  triple (clean fs) (astrometry_login svc api_key) (λ _, (clean fs)) (upload_ok fs).
Proof.
  intros w [Hf Hu]. unfold astrometry_login, mbind, M_bind. simpl.
  assert ((clean fs) (extend w [PostLogin api_key])) as Hclean.
  { split; [done|]. simpl. by rewrite uploads_app, Hu. }
  fold (extend w [PostLogin api_key]).
  destruct (login_http_ok _); simpl; [|by apply clean_upload_ok].
  destruct (login_session _); simpl; [done|by apply clean_upload_ok].
Qed.

Lemma triple_read_files :
  triple (clean fs) read_files (λ fs' w, fs' = fs ∧ (clean fs) w) (upload_ok fs).
Proof. intros w Hw. simpl. split; [apply Hw|done]. Qed.

Lemma triple_write_file raw :
  fs !! target_path = Some raw →
  triple (clean fs) (write_file fits_file_path raw) (λ _, (written fs) raw) (upload_ok fs).
Proof.
  intros Hraw w [Hf Hu]. simpl. split; [done|]. split; [|done].
  simpl. apply lookup_insert_eq.
Qed.

Lemma triple_submit raw session_key :
  triple ((written fs) raw) (submit_fits_file svc session_key fits_file_path)
         (λ _, (uploaded fs) raw) (upload_ok fs).
Proof.
  intros w (Hraw & Hfile & Hu). unfold submit_fits_file, mbind, M_bind.
  simpl. unfold open_file. rewrite Hfile. simpl.
  assert ((uploaded fs) raw (extend w [PostUpload session_key raw])) as Hup.
  { split; [done|]. split; [done|]. simpl. by rewrite uploads_app, Hu. }
  fold (extend w [PostUpload session_key raw]).
  destruct (upload_http_ok _); simpl; [|by eapply uploaded_upload_ok].
  destruct (upload_subid _); simpl; [done|by eapply uploaded_upload_ok].
Qed.

Lemma triple_check_submission_status raw fuel k session_key subid :
  triple ((uploaded fs) raw)
         (check_submission_status svc fuel k session_key subid)
         (λ _, (uploaded fs) raw) (upload_ok fs).
Proof.
  intros w (Hraw & Hfile & Hu).
  destruct (check_submission_status svc fuel k session_key subid w)
    as [out w'] eqn:Hrun.
  apply check_submission_status_world in Hrun as [Hf Ht].
  assert ((uploaded fs) raw w') as Hup.
  { split; [done|]. split; [by rewrite Hf|by rewrite Ht]. }
  destruct out; [done|by eapply uploaded_upload_ok..].
Qed.

Lemma triple_retrieve_results raw job_id :
  triple ((uploaded fs) raw) (retrieve_results svc job_id)
         (λ _, (uploaded fs) raw) (upload_ok fs).
Proof.
  intros w (Hraw & Hfile & Hu). unfold retrieve_results, mbind, M_bind.
  simpl.
  assert ((uploaded fs) raw (extend w [GetJobInfo job_id])) as Hup.
  { split; [done|]. split; [done|]. simpl. by rewrite uploads_app, Hu. }
  fold (extend w [GetJobInfo job_id]).
  destruct (info_http_ok _); simpl; [done|by eapply uploaded_upload_ok].
Qed.

Lemma triple_pipeline fuel :
  triple (clean fs) (pipeline np_std find_peaks disk_sum tan_deproject svc key fuel)
         (λ _, (upload_ok fs)) (upload_ok fs).
Proof.
  unfold pipeline.
  eapply triple_bind; [apply triple_login|]. intros session_key.
  eapply triple_bind; [apply triple_read_files|]. intros fs'.
  eapply triple_bind.
  { apply triple_lift. intros w [_ H]. by apply clean_upload_ok. }
  intros combined_dark. eapply triple_bind.
  { apply triple_lift. intros w (_ & _ & H). by apply clean_upload_ok. }
  intros combined_flat. eapply triple_bind.
  { apply triple_lift. intros w (_ & _ & _ & H). by apply clean_upload_ok. }
  intros target_fits. eapply triple_bind.
  { apply triple_lift. intros w (_ & _ & _ & _ & H). by apply clean_upload_ok. }
  intros corrected.
  eapply (triple_bind _ _ _ (λ _, (written fs) target_fits)).
  { intros w (_ & Hread & _ & _ & -> & Hclean).
    apply triple_write_file; [|done].
    unfold open_file in Hread. by destruct (fs !! target_path) as [raw|]; simplify_eq. }
  intros _. eapply triple_bind; [apply triple_submit|]. intros submission_id.
  eapply triple_bind; [apply triple_check_submission_status|]. intros job_id.
  eapply triple_bind; [apply triple_retrieve_results|]. intros wcs_result.
  eapply (triple_bind _ _ _ (λ _, (uploaded fs) target_fits)).
  { destruct (info_calibration wcs_result).
    - by apply triple_ret.
    - apply triple_raise. apply uploaded_upload_ok. }
  intros cal. eapply triple_weaken.
  { apply triple_lift. apply uploaded_upload_ok. }
  intros rows w [_ H]. by eapply uploaded_upload_ok.
Qed.
End Upload.

(** C3: in every run of the pipeline, whatever the service answers and
    however long the run is observed, a body posted to the upload
    endpoint is the image of the raw target file as it was read, stored
    unchanged as 'processed_image.fits', and at most one body is posted;
    the corrected image is not part of it. *)
Theorem uploaded_file_is_raw_target
    np_std find_peaks disk_sum tan_deproject svc api_key fuel fs out w' :
  pipeline np_std find_peaks disk_sum tan_deproject svc api_key fuel
    {| files := fs; trace := [] |} = (out, w') →
  ∀ session_key body,
    PostUpload session_key body ∈ trace w' →
    fs !! target_path = Some body
    ∧ files w' !! fits_file_path = Some body
    ∧ uploads (trace w') = [body].
Proof.
  intros Hrun session_key body Hin.
  pose proof (triple_pipeline np_std find_peaks disk_sum tan_deproject svc
                api_key fs
                fuel {| files := fs; trace := [] |}) as H.
  rewrite Hrun in H.
  assert (upload_ok fs w') as [Hnone | (raw & Hraw & Hfile & Hup)].
  { destruct out; apply H; by split. }
  - apply elem_of_uploads in Hin. rewrite Hnone in Hin.
    by apply elem_of_nil in Hin.
  - apply elem_of_uploads in Hin. rewrite Hup in Hin.
    apply list_elem_of_singleton in Hin as ->. done.
Qed.

(** * The theorems at concrete inputs *)

Ltac concrete :=
  repeat first
    [ reflexivity
    | by vm_compute
    | by_evaluation
    | split
    | constructor ].

Lemma corrected_image_formula_witness :
  ∃ corrected,
    corrected_image [[px 50; px 60]] [[px 10; px 20]] [[px 4; px 8]] = Ok corrected
    ∧ shape corrected = (1%nat, 2%nat)
    ∧ ∀ i j r d f,
        pixel [[px 50; px 60]] i j = Some r →
        pixel [[px 10; px 20]] i j = Some d →
        pixel [[px 4; px 8]] i j = Some f →
        pixel corrected i j
        = Some (corrected_pixel (np_median [[px 4; px 8]]) r d f).
Proof.
  apply (proj1 corrected_image_formula
           [[px 50; px 60]] [[px 10; px 20]] [[px 4; px 8]]); concrete.
Defined.

Lemma load_and_combine_pixelwise_witness :
  ∃ avg med,
    load_and_combine two_flats ["a.fit"; "b.fit"] "average" None = Ok avg
    ∧ load_and_combine two_flats ["a.fit"; "b.fit"] "median" None = Ok med
    ∧ shape avg = (1%nat, 3%nat) ∧ shape med = (1%nat, 3%nat)
    ∧ ∀ i j xs,
        Forall2 (λ img x, calibrated_sample None img i j = Some x)
          [[[px 100; px 100; px 100]]; [[px 102; px 98; px 100]]] xs →
        pixel avg i j = Some (mean xs) ∧ pixel med i j = Some (median xs).
Proof.
  apply (proj1 load_and_combine_pixelwise two_flats ["a.fit"; "b.fit"]
           [[[px 100; px 100; px 100]]; [[px 102; px 98; px 100]]]
           None (1%nat, 3%nat)).
  - done.
  - concrete.
  - concrete.
  - by intros d.
Defined.

Lemma load_and_combine_permutation_witness :
  ∃ master,
    load_and_combine two_flats ["a.fit"; "b.fit"] "median" None = Ok master
    ∧ load_and_combine two_flats ["b.fit"; "a.fit"] "median" None = Ok master.
Proof.
  apply (load_and_combine_permutation two_flats
           ["a.fit"; "b.fit"] ["b.fit"; "a.fit"]
           [[[px 100; px 100; px 100]]; [[px 102; px 98; px 100]]]
           None (1%nat, 3%nat) "median").
  - done.
  - concrete.
  - concrete.
  - by intros d.
  - apply perm_swap.
  - by left.
Defined.

Lemma shape_mismatch_raises_witness :
  load_and_combine two_flats ["a.fit"; "b.fit"] "average" (Some [[px 1; px 2]])
  = Raise broadcast_error
  ∧ corrected_image [[px 50; px 60; px 70]] [[px 10; px 20]] [[px 5; px 5; px 5]]
    = Raise broadcast_error
  ∧ (∃ master,
       load_and_combine two_flats ["a.fit"; "b.fit"] "average" (Some [[px 1]])
       = Ok master)
  ∧ (∃ minus_dark,
       target_minus_dark [[px 50; px 60]; [px 70; px 80]] [[px 10; px 20]]
       = Ok minus_dark
       ∧ shape minus_dark = (2%nat, 2%nat)).
Proof.
  pose proof shape_mismatch_raises
    as (_ & _ & _ & Href & Hdark & _ & _ & _ & Hsame & Hminus & _).
  split; [|split; [|split]].
  - apply (Href two_flats ["a.fit"; "b.fit"]
             [[[px 100; px 100; px 100]]; [[px 102; px 98; px 100]]]).
    + concrete.
    + apply Exists_cons_hd. reflexivity.
  - apply Hdark. reflexivity.
  - apply (Hsame two_flats ["a.fit"; "b.fit"]
             [[[px 100; px 100; px 100]]; [[px 102; px 98; px 100]]]
             "average" (Some [[px 1]]) (1%nat, 3%nat)).
    + done.
    + concrete.
    + concrete.
    + by intros d [= <-].
    + by left.
  - apply (Hminus [[px 50; px 60]; [px 70; px 80]] [[px 10; px 20]]).
    reflexivity.
Defined.

Lemma zero_flat_pixel_propagates_witness :
  ∃ corrected,
    corrected_image [[px 50; px 50; px 50]] [[px 10; px 10; px 10]]
                    [[px 0; px 5; px 5]] = Ok corrected
    ∧ pixel corrected 0 0 = Some (if decide (px 50 - px 10 = 0) then NaN else Inf).
Proof.
  apply (zero_flat_pixel_propagates
           [[px 50; px 50; px 50]] [[px 10; px 10; px 10]] [[px 0; px 5; px 5]]
           0 0 (px 50) (px 10) (px 0)); concrete.
Defined.


Lemma status_loop_unbounded_witness :
  check_submission_status stalled 3 0 "s" 1 {| files := ∅; trace := [] |}
  = (Running, extend {| files := ∅; trace := [] |} (poll_events "s" 1 3)).
Proof.
  apply (status_loop_unbounded stalled "s" 1%Z 3 0 {| files := ∅; trace := [] |}).
  intros i _. concrete.
Defined.

Lemma no_source_raises_witness :
  measure_stars (λ _, Fin 0) (λ _ _ _, []) (λ _ _ _, Fin 0) (λ c _, c)
    [[Fin (px 40); Fin (px 40)]; [Fin (px 40); Fin (px 40)]] WCS_naxis2
  = Raise (TypeError "'NoneType' object is not subscriptable").
Proof.
  apply (no_source_raises (λ _, Fin 0) (λ _ _ _, []) (λ _ _ _, Fin 0) (λ c _, c)).
  reflexivity.
Defined.


Example night_run_trace :
  trace night_run.2
  = [PostLogin "key"; PostUpload "s" [[px 50; px 60]];
     GetSubmission "s" 1; Sleep 30; GetSubmission "s" 1; GetJobInfo (Some 7%Z)].
Proof. by_evaluation. Qed.

Example night_run_result :
  night_run.1
  = Returned [{| xcenter := px 0; ycenter := px 1; aperture_sum := Fin (px 96);
                 ra_deg := Q2Qc (270001 # 1800); dec_deg := Q2Qc (1801 # 900) |}].
Proof. by_evaluation. Qed.

Example night_run_corrected :
  corrected_image [[px 50; px 60]] [[px 10; px 11]] [[px 5; px 9]]
  = Ok [[Fin (px 56); Fin (Q2Qc (343 # 9))]].
Proof. by_evaluation. Qed.

Lemma uploaded_file_is_raw_target_witness :
  night !! target_path = Some [[px 50; px 60]]
  ∧ files night_run.2 !! fits_file_path = Some [[px 50; px 60]]
  ∧ uploads (trace night_run.2) = [[[px 50; px 60]]].
Proof.
  apply (uploaded_file_is_raw_target
           (λ _, Fin 0) (λ _ _ _, one_star) (λ _ _ _, Fin (px 96))
           (λ c xy, (c.1 + xy.1, c.2 + xy.2)) solving "key" 5 night
           night_run.1 night_run.2 (surjective_pairing night_run)
           "s" [[px 50; px 60]]).
  by_evaluation.
Defined.

(** * Further properties *)

(** ** Bounds of the reductions *)

Lemma nth_Forall (P : Qc → Prop) (l : list Qc) (n : nat) (d : Qc) :
  Forall P l → (n < length l)%nat → P (nth n l d).
Proof.
  intros Hl Hn. rewrite Forall_forall in Hl. apply Hl.
  apply list_elem_of_In. by apply nth_In.
Qed.

Lemma half_between lo hi a b :
  between lo hi a → between lo hi b → between lo hi ((a + b) / 2).
Proof.
  intros [Ha1 Ha2] [Hb1 Hb2].
  assert (0 < 2) as H2 by by vm_compute.
  assert ((a + b) / 2 * 2 = a + b) as Hhalf.
  { rewrite Qcmult_comm. apply Qcmult_div_r. by apply not_symmetry, Qclt_not_eq. }
  split; apply (Qcmult_le_mono_pos_r _ _ _ H2); rewrite Hhalf.
  - replace (lo * 2) with (lo + lo) by ring. by apply Qcplus_le_compat.
  - replace (hi * 2) with (hi + hi) by ring. by apply Qcplus_le_compat.
Qed.

Lemma median_between lo hi (l : list Qc) :
  l ≠ [] → Forall (between lo hi) l → between lo hi (median l).
Proof.
  intros Hne Hl. unfold median.
  pose proof (merge_sort_Permutation Qcle l) as Hperm.
  assert (Forall (between lo hi) (merge_sort Qcle l)) as Hs by by rewrite Hperm.
  assert (0 < length (merge_sort Qcle l))%nat as Hlen.
  { rewrite (Permutation_length Hperm). destruct l; [done|simpl; lia]. }
  destruct (Nat.even _).
  - apply half_between; apply nth_Forall; try done.
    + pose proof (Nat.div_lt _ 2 Hlen). lia.
    + apply Nat.div_lt; lia.
  - apply nth_Forall; [done|]. apply Nat.div_lt; lia.
Qed.

Lemma median_odd_elem_of (l : list Qc) :
  Nat.odd (length l) = true → median l ∈ l.
Proof.
  intros Hodd. unfold median.
  pose proof (merge_sort_Permutation Qcle l) as Hperm.
  rewrite (Permutation_length Hperm).
  rewrite <- Nat.negb_odd, Hodd. cbn [negb].
  eapply elem_of_Permutation_proper; [symmetry; exact Hperm|].
  apply list_elem_of_In, nth_In.
  rewrite (Permutation_length Hperm). apply Nat.div_lt; [|lia].
  destruct l; [done|simpl; lia].
Qed.

(** ** More on the frame combiner *)

Lemma master_pixel fs files imgs reference s i j xs :
  Forall2 (λ file img, fs !! file = Some img) files imgs →
  Forall (frame s) imgs → reference_frame s reference →
  Forall2 (λ img x, calibrated_sample reference img i j = Some x) imgs xs →
  imgs ≠ [] →
  ∃ avg med,
    load_and_combine fs files "average" reference = Ok avg
    ∧ load_and_combine fs files "median" reference = Ok med
    ∧ pixel avg i j = Some (mean xs) ∧ pixel med i j = Some (median xs).
Proof.
  intros Hread Himgs Href Hxs Hne.
  destruct (subtract_reference reference <$> imgs) as [|first rest] eqn:Heq.
  { apply fmap_nil_inv in Heq. done. }
  destruct (load_and_combine_frames fs files imgs reference s first rest)
    as [Havg Hmed]; try done.
  assert (pixel (data_arr first (first :: rest)) i j = Some xs) as Hpix.
  { assert (Forall2 (λ ccd x, pixel ccd i j = Some x) (first :: rest) xs) as H2.
    { rewrite <- Heq. apply Forall2_fmap_l. eapply Forall2_impl; [exact Hxs|].
      intros img x. apply pixel_subtract_reference. }
    apply pixel_data_arr; [|done]. inversion H2; subst. eauto. }
  eexists _, _. split; [exact Havg|]. split; [exact Hmed|].
  by rewrite !pixel_map2d, Hpix.
Qed.

(** X3: with an odd number of frames every pixel of the median master is
    one of the samples of the frames at that pixel. *)
Theorem median_pixel_is_sample fs files imgs reference s i j xs :
  Forall2 (λ file img, fs !! file = Some img) files imgs →
  Forall (frame s) imgs → reference_frame s reference →
  Forall2 (λ img x, calibrated_sample reference img i j = Some x) imgs xs →
  Nat.odd (length files) = true →
  ∃ med m,
    load_and_combine fs files "median" reference = Ok med
    ∧ pixel med i j = Some m ∧ m ∈ xs.
Proof.
  intros Hread Himgs Href Hxs Hodd.
  assert (length files = length xs) as Hlen.
  { rewrite (Forall2_length _ _ _ Hread). by apply Forall2_length in Hxs. }
  assert (imgs ≠ []) as Hne.
  { intros ->. apply Forall2_nil_inv_r in Hread as ->. done. }
  destruct (master_pixel fs files imgs reference s i j xs)
    as (avg & med & Havg & Hmed & Ha & Hm); try done.
  exists med, (median xs). split; [done|]. split; [done|].
  apply median_odd_elem_of. by rewrite <- Hlen.
Qed.

(** Identical frames *)

Lemma data_arr_replicate (img : image) (n : nat) :
  data_arr img (replicate n img) = map2d (replicate n) img.
Proof.
  unfold data_arr. induction n as [|n IH]; cbn [replicate foldr]; [done|].
  rewrite IH. unfold map2d. clear IH.
  induction img as [|row img IHimg]; [done|].
  rewrite !fmap_cons. cbn [zip_with]. rewrite IHimg. f_equal.
  clear. induction row as [|x row IHrow]; [done|].
  rewrite !fmap_cons. cbn [zip_with]. by rewrite IHrow.
Qed.

Lemma median_replicate (n : nat) (x : Qc) : (0 < n)%nat → median (replicate n x) = x.
Proof.
  intros Hn. destruct (median_between x x (replicate n x)) as [H1 H2].
  - destruct n; [lia|done].
  - apply Forall_replicate. split; apply Qcle_refl.
  - by apply Qcle_antisym.
Qed.

Lemma map2d_map2d {A B C} (f : A → B) (g : B → C) (a : ndarray A) :
  map2d g (map2d f a) = map2d (g ∘ f) a.
Proof.
  unfold map2d. rewrite <- list_fmap_compose. apply list_fmap_ext.
  intros _ row _. simpl. by rewrite <- list_fmap_compose.
Qed.

Lemma map2d_id_ext {A} (f : A → A) (a : ndarray A) :
  (∀ x, f x = x) → map2d f a = a.
Proof.
  intros Hf. unfold map2d. rewrite <- (list_fmap_id a) at 2.
  apply list_fmap_ext. intros _ row _. simpl.
  rewrite <- (list_fmap_id row) at 2. apply list_fmap_ext. intros _ x _. apply Hf.
Qed.

Lemma Combiner_replicate (img : image) (n : nat) :
  Combiner (replicate (S n) img) = Ok (map2d (replicate (S n)) img).
Proof.
  rewrite <- data_arr_replicate. cbn [replicate]. unfold Combiner.
  assert (forallb (λ ccd, bool_decide (shape ccd = shape img)) (replicate n img)
          = true) as ->.
  { apply forallb_forall. intros ccd Hin. apply bool_decide_eq_true_2.
    apply list_elem_of_In, elem_of_replicate in Hin as [-> _]. done. }
  done.
Qed.

(** X1: combining one or more files that hold the same image, with no
    reference, returns that image under 'median'. *)
Theorem identical_frames_combine fs files img :
  files ≠ [] →
  Forall (λ file, fs !! file = Some img) files →
  load_and_combine fs files "median" None = Ok img.
Proof.
  intros Hne Hfiles. unfold load_and_combine.
  rewrite (read_frames_no_reference _ _ (replicate (length files) img)).
  2:{ clear Hne. induction Hfiles; simpl; by constructor. }
  destruct files as [|file files]; [done|]. cbn [length app].
  cbn [mbind result_bind]. rewrite Combiner_replicate. cbn [mbind result_bind].
  cbn [String.eqb Ascii.eqb Bool.eqb]. f_equal.
  unfold median_combine. rewrite map2d_map2d. apply map2d_id_ext.
  intros x. apply median_replicate. lia.
Qed.

(** Errors *)

Lemma read_frames_app fs pre rest reference acc :
  read_frames fs (pre ++ rest) reference acc
  = read_frames fs pre reference acc ≫= read_frames fs rest reference.
Proof.
  revert acc. induction pre as [|file pre IH]; intros acc; [done|].
  cbn [app read_frames].
  destruct (CCDData_read fs file) as [ccd|e]; [|done]. cbn [mbind result_bind].
  destruct (match reference with Some d => _ | None => _ end) as [ccd'|e]; [|done].
  cbn [mbind result_bind]. apply IH.
Qed.

(** X5: when the files before it load and one file is absent,
    [load_and_combine] raises [FileNotFoundError] for that file and
    returns no frame, whatever follows in the list. *)
Theorem missing_file_raises fs pre file post method reference :
  Forall (loadable fs reference) pre →
  fs !! file = None →
  load_and_combine fs (pre ++ file :: post) method reference
  = Raise (FileNotFoundError file).
Proof.
  intros Hpre Hfile. unfold load_and_combine. rewrite read_frames_app.
  destruct (read_frames_loadable fs pre reference [] Hpre) as [ccds ->].
  cbn [mbind result_bind read_frames]. unfold CCDData_read, open_file.
  by rewrite Hfile.
Qed.

(** X6: with a method other than 'average' and 'median' the frames are
    read and stacked, and the [return] raises [UnboundLocalError]: no
    branch assigned [combined_data]. *)
Theorem unknown_method_raises fs files imgs reference s method :
  imgs ≠ [] →
  Forall2 (λ file img, fs !! file = Some img) files imgs →
  Forall (frame s) imgs → reference_frame s reference →
  method ≠ "average" → method ≠ "median" →
  load_and_combine fs files method reference
  = Raise (UnboundLocalError "combined_data").
Proof.
  intros Hne Hread Himgs Href Ha Hm. unfold load_and_combine.
  rewrite (read_frames_ok _ _ imgs _ s) by done. cbn [mbind result_bind app].
  destruct (subtract_reference reference <$> imgs) as [|first rest] eqn:Heq.
  { apply fmap_nil_inv in Heq. done. }
  assert (Forall (frame s) (first :: rest)) as Hfr.
  { rewrite <- Heq. apply Forall_fmap. eapply Forall_impl; [exact Himgs|].
    intros img Himg. simpl. by apply frame_subtract_reference. }
  rewrite (Combiner_ok s) by done. cbn [mbind result_bind].
  apply String.eqb_neq in Ha, Hm. by rewrite Ha, Hm.
Qed.

(** ** More on the calibration applier *)

Lemma map2d_ext {A B} (f g : A → B) (a : ndarray A) :
  (∀ x, f x = g x) → map2d f a = map2d g a.
Proof.
  intros Hfg. unfold map2d. apply list_fmap_ext. intros _ row _. simpl.
  apply list_fmap_ext. intros _ x _. apply Hfg.
Qed.

(** A uniform flat *)

Lemma concat_replicate_replicate {A} (r c : nat) (v : A) :
  concat (replicate r (replicate c v)) = replicate (r * c) v.
Proof.
  induction r as [|r IH]; [done|]. cbn [replicate concat].
  by rewrite IH, <- replicate_add.
Qed.

Lemma normalized_uniform (r c : nat) (v : Qc) :
  v ≠ 0 →
  combined_flat_normalized (replicate r (replicate c v))
  = replicate r (replicate c (Fin 1)).
Proof.
  intros Hv. unfold combined_flat_normalized, map2d.
  rewrite fmap_replicate, fmap_replicate.
  destruct (decide (r * c = 0)%nat) as [Hz|Hnz].
  - destruct r as [|r]; [done|]. destruct c as [|c]; [done|]. lia.
  - do 2 f_equal. unfold np_median. rewrite concat_replicate_replicate.
    destruct (replicate (r * c) v) as [|x l] eqn:Hrep.
    { destruct (r * c)%nat; done. }
    rewrite <- Hrep, median_replicate by lia.
    unfold fdiv. rewrite decide_False by done. f_equal. by field.
Qed.

Lemma zip_rows_replicate {A B C} (g : A → B → C) (a : ndarray A) (r c : nat) (y : B) :
  length a = r → Forall (λ row, length row = c) a →
  zip_with (zip_with g) a (replicate r (replicate c y)) = map2d (λ x, g x y) a.
Proof.
  intros <- Ha. unfold map2d.
  induction Ha as [|row a Hrow _ IH]; [done|].
  cbn [length replicate zip_with]. rewrite fmap_cons, IH. f_equal.
  by rewrite zip_with_replicate_r_eq.
Qed.

(** X9: with a flat master that is uniform and not zero, the corrected
    image is the raw image minus the dark master. *)
Theorem uniform_flat_is_neutral (raw dark : image) (r c : nat) (v : Qc) :
  shape raw = (r, c) → shape dark = (r, c) →
  rectangular raw → rectangular dark →
  v ≠ 0 →
  corrected_image raw dark (replicate r (replicate c v))
  = Ok (map2d Fin (zip_with (zip_with Qcminus) raw dark)).
Proof.
  intros Hraw Hdark Rr Rd Hv. unfold corrected_image, target_minus_dark.
  rewrite broadcast2_same_shape by (done || congruence).
  cbn [mbind result_bind]. rewrite normalized_uniform by done.
  assert (shape (zip_with (zip_with Qcminus) raw dark) = (r, c)) as Hs.
  { rewrite shape_zip_with; congruence. }
  assert (rectangular (zip_with (zip_with Qcminus) raw dark)) as Hrect.
  { apply rectangular_zip_with; [congruence|done..]. }
  injection Hs as Hrows Hcols.
  assert (Forall (λ row, length row = c) (zip_with (zip_with Qcminus) raw dark)) as Hc.
  { unfold rectangular in Hrect. by rewrite Hcols in Hrect. }
  unfold broadcast2. rewrite length_replicate, Hrows, Hcols.
  assert (ncols (replicate r (replicate c (Fin 1))) = c ∨ r = 0%nat) as [Hnc | ->].
  { destruct r; [by right|left]. simpl. by rewrite length_replicate. }
  - rewrite Hnc, !broadcast_dim_same.
    rewrite (broadcast_to_id r c (zip_with _ raw dark)) by done.
    rewrite (broadcast_to_id r c (replicate r _)).
    + rewrite zip_rows_replicate by done. f_equal. apply map2d_ext.
      intros t. unfold fdiv. rewrite decide_False by by vm_compute.
      f_equal. field. by vm_compute.
    + apply length_replicate.
    + apply Forall_replicate, length_replicate.
  - apply nil_length_inv in Hrows. rewrite Hrows in *. simpl in Hcols. subst c.
    reflexivity.
Qed.

(** ** More on the status loop *)

(** X10: when the responses before the [n]-th one are pending and the
    [n]-th one lists jobs, the loop returns the first entry of the list
    at once, a [null] entry included and whatever the status says, after
    [n] sleeps of 30 seconds. *)
Theorem first_job_entry_returned svc session_key subid n fuel k w job rest :
  (∀ i, (i < n)%nat → pending (status_reply svc (k + i))) →
  status_http_ok (status_reply svc (k + n)) = true →
  status_jobs (status_reply svc (k + n)) = job :: rest →
  (n < fuel)%nat →
  check_submission_status svc fuel k session_key subid w
  = (Returned job,
     extend w (poll_events session_key subid n ++ [GetSubmission session_key subid])).
Proof.
  intros Hpending Hok Hjobs Hfuel.
  replace fuel with (n + S (fuel - S n))%nat by lia.
  rewrite check_submission_status_pending by done.
  cbn [check_submission_status]. unfold mbind, M_bind. simpl.
  rewrite Hok, Hjobs. simpl.
  unfold extend. simpl. by rewrite <- app_assoc.
Qed.

(** X11: an HTTP error status on a status request raises [HTTPError]
    before the body is looked at, whatever jobs or status it carries. *)
Theorem http_error_raised_first svc session_key subid n fuel k w :
  (∀ i, (i < n)%nat → pending (status_reply svc (k + i))) →
  status_http_ok (status_reply svc (k + n)) = false →
  (n < fuel)%nat →
  check_submission_status svc fuel k session_key subid w
  = (Raised HTTPError,
     extend w (poll_events session_key subid n ++ [GetSubmission session_key subid])).
Proof.
  intros Hpending Hok Hfuel.
  replace fuel with (n + S (fuel - S n))%nat by lia.
  rewrite check_submission_status_pending by done.
  cbn [check_submission_status]. unfold mbind, M_bind. simpl.
  rewrite Hok. simpl.
  unfold raise, extend. simpl. by rewrite <- app_assoc.
Qed.

Lemma check_submission_status_returned svc session_key subid fuel k w job w' :
  check_submission_status svc fuel k session_key subid w = (Returned job, w') →
  ∃ n, (n < fuel)%nat
       ∧ w' = extend w (poll_events session_key subid n
                         ++ [GetSubmission session_key subid]).
Proof.
  revert k w. induction fuel as [|fuel IH]; intros k w; [done|].
  cbn [check_submission_status]. unfold mbind, M_bind at 1. simpl.
  fold (extend w [GetSubmission session_key subid]).
  destruct (status_http_ok (status_reply svc k)); simpl; [|done].
  destruct (status_jobs (status_reply svc k)) as [|j jobs].
  2:{ intros [= <- <-]. exists 0%nat. split; [lia|done]. }
  destruct (bool_decide _); [done|].
  unfold mbind, M_bind at 1. simpl. intros H.
  apply IH in H as (n & Hn & ->). exists (S n). split; [lia|].
  unfold extend, poll_events. simpl. by rewrite <- !app_assoc.
Qed.

(** ** Inversion of a computation that returns *)

Lemma bind_returned {A B} (m : M A) (f : A → M B) w b w' :
  (m ≫= f) w = (Returned b, w') →
  ∃ a w1, m w = (Returned a, w1) ∧ f a w1 = (Returned b, w').
Proof.
  unfold mbind, M_bind. destruct (m w) as [[a| |] w1]; [eauto|done..].
Qed.

Lemma lift_returned {A} (r : result A) w a w' :
  lift r w = (Returned a, w') → r = Ok a ∧ w' = w.
Proof. destruct r; simpl; [by intros [= <- <-]|done]. Qed.

Lemma astrometry_login_returned svc api_key w session w' :
  astrometry_login svc api_key w = (Returned session, w') →
  login_session (login_reply svc api_key) = Some session
  ∧ w' = extend w [PostLogin api_key].
Proof.
  unfold astrometry_login, mbind, M_bind. simpl.
  destruct (login_http_ok _); simpl; [|done].
  destruct (login_session _); simpl; [|done]. by intros [= <- <-].
Qed.

Lemma submit_fits_file_returned svc session_key path w subid w' :
  submit_fits_file svc session_key path w = (Returned subid, w') →
  ∃ body, files w !! path = Some body
          ∧ w' = extend w [PostUpload session_key body].
Proof.
  unfold submit_fits_file, mbind, M_bind. simpl. unfold open_file.
  destruct (files w !! path) as [body|]; simpl; [|done].
  destruct (upload_http_ok _); simpl; [|done].
  destruct (upload_subid _); simpl; [|done]. intros [= <- <-]. eauto.
Qed.

Lemma retrieve_results_returned svc job_id w r w' :
  retrieve_results svc job_id w = (Returned r, w') →
  r = info_reply svc job_id ∧ w' = extend w [GetJobInfo job_id].
Proof.
  unfold retrieve_results, mbind, M_bind. simpl.
  destruct (info_http_ok _); simpl; [|done]. by intros [= <- <-].
Qed.

(** X12: a run that returns has sent, in this order and nothing else: one
    login, one upload of the raw target, status requests separated by
    sleeps of 30 seconds, and one request for the information of the job,
    which carried a calibration. *)
Theorem completed_run_trace
    np_std find_peaks disk_sum tan_deproject svc api_key fuel fs rows w' :
  pipeline np_std find_peaks disk_sum tan_deproject svc api_key fuel
    {| files := fs; trace := [] |} = (Returned rows, w') →
  ∃ session_key subid n job_id raw,
    fs !! target_path = Some raw
    ∧ (n < fuel)%nat
    ∧ is_Some (info_calibration (info_reply svc job_id))
    ∧ trace w'
      = [PostLogin api_key; PostUpload session_key raw]
        ++ poll_events session_key subid n
        ++ [GetSubmission session_key subid; GetJobInfo job_id].
Proof.
  unfold pipeline. intros H.
  apply bind_returned in H as (session_key & w1 & Hlogin & H).
  apply astrometry_login_returned in Hlogin as [_ ->].
  apply bind_returned in H as (fs' & w2 & Hfs & H).
  injection Hfs as <- <-. simpl in H.
  apply bind_returned in H as (combined_dark & w3 & Hd & H).
  apply lift_returned in Hd as [_ ->].
  apply bind_returned in H as (combined_flat & w4 & Hf & H).
  apply lift_returned in Hf as [_ ->].
  apply bind_returned in H as (target_fits & w5 & Ht & H).
  apply lift_returned in Ht as [Ht ->].
  apply bind_returned in H as (corrected & w6 & Hc & H).
  apply lift_returned in Hc as [_ ->].
  apply bind_returned in H as ([] & w7 & Hw & H).
  injection Hw as <-.
  apply bind_returned in H as (subid & w8 & Hs & H).
  apply submit_fits_file_returned in Hs as (body & Hbody & ->).
  simpl in Hbody. rewrite lookup_insert_eq in Hbody. injection Hbody as <-.
  apply bind_returned in H as (job_id & w9 & Hj & H).
  apply check_submission_status_returned in Hj as (n & Hn & ->).
  apply bind_returned in H as (wcs_result & w10 & Hr & H).
  apply retrieve_results_returned in Hr as [-> ->].
  apply bind_returned in H as (cal & w11 & Hcal & H).
  destruct (info_calibration (info_reply svc job_id)) as [cal'|] eqn:Hinfo; [|done].
  injection Hcal as <- <-.
  apply lift_returned in H as [_ ->].
  exists session_key, subid, n, job_id, target_fits.
  unfold open_file in Ht. destruct (fs !! target_path) as [raw|]; [|done].
  injection Ht as ->. split; [done|]. split; [done|]. split; [by rewrite Hinfo|].
  simpl. by rewrite <- !app_assoc.
Qed.

(** X13: when the login is refused (HTTP error or no session key) the
    run raises with the login request as its only effect: no file is
    read or written. *)
Theorem rejected_login_aborts
    np_std find_peaks disk_sum tan_deproject svc api_key fuel w :
  login_http_ok (login_reply svc api_key) = false
  ∨ login_session (login_reply svc api_key) = None →
  ∃ e,
    pipeline np_std find_peaks disk_sum tan_deproject svc api_key fuel w
    = (Raised e, extend w [PostLogin api_key]).
Proof.
  intros H. unfold pipeline, astrometry_login, mbind, M_bind. simpl.
  fold (extend w [PostLogin api_key]).
  destruct (login_http_ok _); simpl.
  - destruct H as [H|H]; [done|]. rewrite H. simpl. eauto.
  - eauto.
Qed.

(** X14: when lines 101-111 raise (a missing file, shapes that do not
    combine), the run raises that error after the login: nothing is
    written and nothing is uploaded. *)
Theorem failed_calibration_aborts
    np_std find_peaks disk_sum tan_deproject svc api_key fuel fs t session_key e :
  login_http_ok (login_reply svc api_key) = true →
  login_session (login_reply svc api_key) = Some session_key →
  calibration_stage fs = Raise e →
  pipeline np_std find_peaks disk_sum tan_deproject svc api_key fuel
    {| files := fs; trace := t |}
  = (Raised e, {| files := fs; trace := t ++ [PostLogin api_key] |}).
Proof.
  intros Hok Hsession Hcal.
  unfold pipeline, astrometry_login, mbind at 1 2 3, M_bind. simpl.
  rewrite Hok, Hsession. simpl.
  unfold calibration_stage in Hcal. unfold mbind, M_bind.
  destruct (load_and_combine fs dark_frame_paths "median" None)
    as [combined_dark|e1]; simpl in *; [|by injection Hcal as ->].
  destruct (load_and_combine fs flat_field_paths "median" (Some combined_dark))
    as [combined_flat|e2]; simpl in *; [|by injection Hcal as ->].
  destruct (open_file fs target_path) as [target_fits|e3]; simpl in *;
    [|by injection Hcal as ->].
  destruct (corrected_image target_fits combined_dark combined_flat)
    as [corrected|e4]; simpl in *; [done|by injection Hcal as ->].
Qed.

(** Files *)

Lemma triple_files {A} (F : gmap string image) (m : M A) :
  (∀ w out w', m w = (out, w') → files w' = files w) →
  triple (λ w, files w = F) m (λ _ w, files w = F) (λ w, files w = F).
Proof.
  intros Hm w Hw. destruct (m w) as [out w'] eqn:Hrun.
  apply Hm in Hrun. rewrite <- Hw, <- Hrun. by destruct out.
Qed.

Lemma astrometry_login_files svc api_key w out w' :
  astrometry_login svc api_key w = (out, w') → files w' = files w.
Proof.
  unfold astrometry_login, mbind, M_bind. simpl.
  destruct (login_http_ok _); simpl; [|by intros [= <- <-]].
  destruct (login_session _); simpl; by intros [= <- <-].
Qed.

Lemma submit_fits_file_files svc session_key path w out w' :
  submit_fits_file svc session_key path w = (out, w') → files w' = files w.
Proof.
  unfold submit_fits_file, mbind, M_bind. simpl.
  destruct (open_file _ _); simpl; [|by intros [= <- <-]].
  destruct (upload_http_ok _); simpl; [|by intros [= <- <-]].
  destruct (upload_subid _); simpl; by intros [= <- <-].
Qed.

Lemma retrieve_results_files svc job_id w out w' :
  retrieve_results svc job_id w = (out, w') → files w' = files w.
Proof.
  unfold retrieve_results, mbind, M_bind. simpl.
  destruct (info_http_ok _); simpl; by intros [= <- <-].
Qed.

Lemma lift_files {A} (r : result A) w out w' :
  lift r w = (out, w') → files w' = files w.
Proof. destruct r; simpl; by intros [= <- <-]. Qed.

(** X15: a run, however it ends, leaves the file system as it was, or as
    it was with the raw target stored as 'processed_image.fits'; no other
    file is created, changed or removed. *)
Theorem only_processed_image_written
    np_std find_peaks disk_sum tan_deproject svc api_key fuel fs t out w' :
  pipeline np_std find_peaks disk_sum tan_deproject svc api_key fuel
    {| files := fs; trace := t |} = (out, w') →
  untouched fs w' ∨ stored fs w'.
Proof.
  intros Hrun.
  assert (triple (untouched fs)
            (pipeline np_std find_peaks disk_sum tan_deproject svc api_key fuel)
            (λ _ w, untouched fs w ∨ stored fs w)
            (λ w, untouched fs w ∨ stored fs w)) as Htriple.
  { unfold pipeline, untouched.
    eapply triple_bind with (Q := λ _ w, files w = fs).
    { eapply triple_weaken with (Q := λ _ w, files w = fs).
      - intros w Hw. pose proof (triple_files fs (astrometry_login svc api_key)
          (astrometry_login_files svc api_key) w Hw) as H.
        destruct (astrometry_login svc api_key w) as [[| |] ?]; auto.
      - done. }
    intros session_key.
    eapply triple_bind with (Q := λ fs' w, fs' = fs ∧ files w = fs).
    { intros w Hw. simpl. done. }
    intros fs'. eapply triple_bind.
    { apply triple_lift. intros w [_ H]. by left. }
    intros combined_dark. eapply triple_bind.
    { apply triple_lift. intros w (_ & _ & H). by left. }
    intros combined_flat. eapply triple_bind.
    { apply triple_lift. intros w (_ & _ & _ & H). by left. }
    intros target_fits. eapply triple_bind.
    { apply triple_lift. intros w (_ & _ & _ & _ & H). by left. }
    intros corrected.
    eapply triple_bind with
      (Q := λ _ w, files w = <[fits_file_path := target_fits]> fs
                   ∧ fs !! target_path = Some target_fits).
    { intros w (_ & Hread & _ & _ & -> & Hw). simpl. rewrite Hw. split; [done|].
      unfold open_file in Hread. by destruct (fs !! target_path); simplify_eq. }
    intros _.
    assert (∀ w, files w = <[fits_file_path := target_fits]> fs
                 ∧ fs !! target_path = Some target_fits →
                 files w = fs ∨ stored fs w) as Hstored.
    { intros w [Hw Ht]. right. by exists target_fits. }
    assert (∀ {A} (m : M A),
              (∀ w out w', m w = (out, w') → files w' = files w) →
              triple (λ w, files w = <[fits_file_path := target_fits]> fs
                           ∧ fs !! target_path = Some target_fits)
                     m
                     (λ _ w, files w = <[fits_file_path := target_fits]> fs
                             ∧ fs !! target_path = Some target_fits)
                     (λ w, files w = fs ∨ stored fs w)) as Hkeep.
    { intros A m Hm w [Hw Ht]. destruct (m w) as [o w1] eqn:Hmw.
      apply Hm in Hmw. rewrite <- Hmw in Hw. destruct o; auto. }
    eapply triple_bind; [apply Hkeep, submit_fits_file_files|]. intros subid.
    eapply triple_bind.
    { apply Hkeep. intros w o w1 H.
      by apply check_submission_status_world in H as [-> _]. }
    intros job_id.
    eapply triple_bind; [apply Hkeep, retrieve_results_files|]. intros wcs_result.
    eapply triple_bind.
    { apply Hkeep. intros w o w1.
      destruct (info_calibration wcs_result); by intros [= <- <-]. }
    intros cal. eapply triple_weaken; [apply Hkeep, lift_files|].
    intros rows w H. by apply Hstored. }
  specialize (Htriple {| files := fs; trace := t |} eq_refl).
  rewrite Hrun in Htriple. by destruct out.
Qed.

Lemma phot_rows (flux : Qc * Qc → fval) (sky : Qc * Qc → Qc * Qc)
    (stars : list star) :
  let positions := zip (xcentroid <$> stars) (ycentroid <$> stars) in
  Forall2 (λ st row,
             xcenter row = xcentroid st ∧ ycenter row = ycentroid st
             ∧ aperture_sum row = flux (xcentroid st, ycentroid st))
    stars
    (zip_with (λ '(p, f) s,
                 {| xcenter := p.1; ycenter := p.2; aperture_sum := f;
                    ra_deg := s.1; dec_deg := s.2 |})
              ((λ p, (p, flux p)) <$> positions) (sky <$> positions)).
Proof.
  induction stars as [|st stars IH]; simpl; constructor; [done|apply IH].
Qed.

(** X16: when stars are found, and the transformation is one that the
    library accepts (non-zero increments, a reference latitude from -90
    to 90 degrees), the table has one row per star, in the order of
    detection, with the centroid of the star as centre and the sum over
    the disk of radius 3 at that centroid as flux. *)
Theorem one_row_per_star
    np_std find_peaks disk_sum tan_deproject corrected wcs stars :
  (cdelt wcs).1 ≠ 0 → (cdelt wcs).2 ≠ 0 →
  - px 90 ≤ (crval wcs).2 → (crval wcs).2 ≤ px 90 →
  DAOStarFinder find_peaks (Q2Qc (7 # 2))
    (fmul (Fin (Q2Qc (11 # 5))) (np_std corrected)) corrected = Some stars →
  ∃ rows,
    measure_stars np_std find_peaks disk_sum tan_deproject corrected wcs = Ok rows
    ∧ Forall2 (λ st row,
                 xcenter row = xcentroid st ∧ ycenter row = ycentroid st
                 ∧ aperture_sum row
                   = disk_sum corrected (px 3) (xcentroid st, ycentroid st))
              stars rows.
Proof.
  intros H1 H2 Hlo Hhi Hstars. unfold measure_stars. rewrite Hstars.
  rewrite all_pix2world_ok by done. cbn [mbind result_bind].
  eexists. split; [reflexivity|].
  apply (phot_rows (disk_sum corrected (px 3)) (pix2world tan_deproject wcs 0)).
Qed.

(** ** The second cell: stacking with SWarp *)

(** X18: when SWarp exits with a status other than 0 the cell prints the
    error and goes on: its result is whatever 'coadd.fits' holds after
    the command, a stale image or [FileNotFoundError], not the failure. *)
Theorem swarp_failure_not_raised (os : programs) h h2 returncode :
  os ["swarp"; "@input.list"; "-c"; "default.swarp"]
     (create_input_list fits_files "input.list" h).2
  = (Exited returncode, h2) →
  returncode ≠ 0%Z →
  stacking_cell os h
  = (open_file (fits_on_disk h2) "coadd.fits", print_message (SwarpError returncode) h2).
Proof.
  intros Hrun Hcode. unfold stacking_cell, run_swarp. cbn [create_input_list].
  cbn [create_input_list snd] in Hrun.
  change ("@" +:+ "input.list") with "@input.list".
  unfold config_file. rewrite Hrun.
  destruct returncode; [done|done..].
Qed.

(** X19: when the SWarp executable is not found the error is not caught:
    the cell raises [FileNotFoundError] and does not read 'coadd.fits'. *)
Theorem swarp_missing_raises (os : programs) h h2 :
  os ["swarp"; "@input.list"; "-c"; "default.swarp"]
     (create_input_list fits_files "input.list" h).2
  = (NoExecutable, h2) →
  stacking_cell os h = (Raise (FileNotFoundError "swarp"), h2).
Proof.
  intros Hrun. unfold stacking_cell, run_swarp. cbn [create_input_list].
  cbn [create_input_list snd] in Hrun.
  change ("@" +:+ "input.list") with "@input.list".
  unfold config_file. by rewrite Hrun.
Qed.

(** ** The median and outliers *)

Lemma filter_length_mono {A} (P Q : A → Prop)
    `{!∀ x, Decision (P x)} `{!∀ x, Decision (Q x)} (l : list A) :
  (∀ x, P x → Q x) → (length (filter P l) ≤ length (filter Q l))%nat.
Proof.
  intros HPQ. induction l as [|x l IH]; [done|].
  rewrite !filter_cons. destruct (decide (P x)) as [HP|HP].
  - rewrite decide_True by auto. simpl. lia.
  - destruct (decide (Q x)); simpl; lia.
Qed.

Lemma sorted_nth_lower (lo : Qc) (s : list Qc) (idx : nat) :
  StronglySorted Qcle s → (idx < length s)%nat →
  (length (filter (λ x, (x < lo)%Qc) s) ≤ idx)%nat →
  lo ≤ nth idx s 0.
Proof.
  intros Hs. revert idx.
  induction Hs as [|x s Hs IH Hx]; intros idx Hidx Hcount; [simpl in Hidx; lia|].
  rewrite filter_cons in Hcount.
  destruct (decide (x < lo)) as [Hlt|Hge].
  - simpl in Hcount. destruct idx as [|i]; [lia|]. simpl.
    apply IH; [simpl in Hidx; lia|lia].
  - apply Qcnot_lt_le in Hge. destruct idx as [|i]; [done|]. simpl.
    apply Qcle_trans with x; [done|].
    rewrite Forall_forall in Hx. apply Hx, list_elem_of_In, nth_In.
    simpl in Hidx. lia.
Qed.

Lemma sorted_nth_upper (hi : Qc) (s : list Qc) (idx : nat) :
  StronglySorted Qcle s → (idx < length s)%nat →
  (length (filter (λ x, (hi < x)%Qc) s) ≤ length s - 1 - idx)%nat →
  nth idx s 0 ≤ hi.
Proof.
  intros Hs. revert idx.
  induction Hs as [|x s Hs IH Hx]; intros idx Hidx Hcount; [simpl in Hidx; lia|].
  destruct idx as [|i]; simpl.
  - apply Qcnot_lt_le. intros Hlt.
    assert (filter (λ y, (hi < y)%Qc) (x :: s) = x :: s) as Hall.
    { rewrite filter_cons, decide_True by done. f_equal.
      clear - Hx Hlt. induction Hx as [|y s Hy _ IH]; [done|].
      rewrite filter_cons, decide_True; [by rewrite IH|].
      by apply Qclt_le_trans with x. }
    rewrite Hall in Hcount. simpl in Hcount. lia.
  - apply IH; [simpl in Hidx; lia|].
    rewrite filter_cons in Hcount. simpl in Hcount.
    destruct (decide (hi < x)); simpl in Hcount; lia.
Qed.

Lemma median_majority (lo hi : Qc) (l : list Qc) :
  (2 * length (filter (λ x, ¬ between lo hi x) l) < length l)%nat →
  between lo hi (median l).
Proof.
  intros Hmaj. unfold median.
  pose proof (merge_sort_Permutation Qcle l) as Hperm.
  pose proof (StronglySorted_merge_sort Qcle l) as Hsorted.
  set (s := merge_sort Qcle l) in *.
  assert (length s = length l) as Hlen by by rewrite Hperm.
  assert (length (filter (λ x, (x < lo)%Qc) s)
          ≤ length (filter (λ x, ¬ between lo hi x) l))%nat as Hlow.
  { rewrite Hperm. apply filter_length_mono. intros x Hx [H _].
    by apply Qclt_not_le in Hx. }
  assert (length (filter (λ x, (hi < x)%Qc) s)
          ≤ length (filter (λ x, ¬ between lo hi x) l))%nat as Hhigh.
  { rewrite Hperm. apply filter_length_mono. intros x Hx [_ H].
    by apply Qclt_not_le in Hx. }
  assert (∀ idx, (idx < length s)%nat →
            (length (filter (λ x, ¬ between lo hi x) l) ≤ idx)%nat →
            (length (filter (λ x, ¬ between lo hi x) l) ≤ length s - 1 - idx)%nat →
            between lo hi (nth idx s 0)) as Hmid.
  { intros idx Hidx H1 H2. split.
    - apply sorted_nth_lower; [done..|lia].
    - apply sorted_nth_upper; [done..|lia]. }
  pose proof (Nat.div_mod_eq (length s) 2) as Hdiv.
  destruct (Nat.even (length s)) eqn:Heven.
  - apply Nat.even_spec in Heven as [k Hk].
    assert (length s / 2 = k)%nat as Hhalf.
    { rewrite Hk, Nat.mul_comm. apply Nat.div_mul. lia. }
    rewrite Hhalf. apply half_between; apply Hmid; lia.
  - assert (Nat.odd (length s) = true) as Hodd.
    { by rewrite <- Nat.negb_even, Heven. }
    apply Nat.odd_spec in Hodd as [k Hk].
    assert (length s / 2 = k)%nat as Hhalf.
    { rewrite Hk. rewrite Nat.add_comm, Nat.mul_comm.
      rewrite Nat.div_add by lia. done. }
    rewrite Hhalf. apply Hmid; lia.
Qed.

(** X4: when more than half of the samples at a pixel lie in an interval,
    the median master lies in it at that pixel, whatever the other
    samples are (the outliers of the comment on line 28). *)
Theorem median_ignores_minority fs files imgs reference s i j xs (lo hi : Qc) :
  Forall2 (λ file img, fs !! file = Some img) files imgs →
  Forall (frame s) imgs → reference_frame s reference →
  Forall2 (λ img x, calibrated_sample reference img i j = Some x) imgs xs →
  (2 * length (filter (λ x, ¬ between lo hi x) xs) < length xs)%nat →
  ∃ med m,
    load_and_combine fs files "median" reference = Ok med
    ∧ pixel med i j = Some m ∧ between lo hi m.
Proof.
  intros Hread Himgs Href Hxs Hmaj.
  assert (imgs ≠ []) as Hne.
  { intros ->. apply Forall2_nil_inv_l in Hxs as ->. simpl in Hmaj. lia. }
  destruct (master_pixel fs files imgs reference s i j xs)
    as (avg & med & Havg & Hmed & Ha & Hm); try done.
  exists med, (median xs). split; [done|]. split; [done|].
  by apply median_majority.
Qed.

(** * The further properties at concrete inputs *)

Lemma median_ignores_minority_witness :
  ∃ med m,
    load_and_combine three_frames ["1.fit"; "2.fit"; "3.fit"] "median" None = Ok med
    ∧ pixel med 0 0 = Some m ∧ between (px 10) (px 12) m.
Proof.
  apply (median_ignores_minority three_frames ["1.fit"; "2.fit"; "3.fit"]
           [[[px 10; px 20]]; [[px 900; px 22]]; [[px 12; px 21]]]
           None (1%nat, 2%nat) 0 0 [px 10; px 900; px 12]).
  - concrete.
  - concrete.
  - by intros d.
  - concrete.
  - vm_compute. lia.
Defined.

Lemma identical_frames_combine_witness :
  load_and_combine twice ["a.fit"; "b.fit"] "median" None
  = Ok [[px 7; px 8]; [px 9; px 10]].
Proof.
  apply (identical_frames_combine twice ["a.fit"; "b.fit"]
           [[px 7; px 8]; [px 9; px 10]]); [done|concrete].
Defined.

Lemma median_pixel_is_sample_witness :
  ∃ med m,
    load_and_combine three_frames ["1.fit"; "2.fit"; "3.fit"] "median" None = Ok med
    ∧ pixel med 0 0 = Some m ∧ m ∈ [px 10; px 900; px 12].
Proof.
  apply (median_pixel_is_sample three_frames ["1.fit"; "2.fit"; "3.fit"]
           [[[px 10; px 20]]; [[px 900; px 22]]; [[px 12; px 21]]]
           None (1%nat, 2%nat) 0 0 [px 10; px 900; px 12]).
  - concrete.
  - concrete.
  - by intros d.
  - concrete.
  - reflexivity.
Defined.

Lemma missing_file_raises_witness :
  load_and_combine two_flats ["a.fit"; "c.fit"; "b.fit"] "average" None
  = Raise (FileNotFoundError "c.fit").
Proof.
  apply (missing_file_raises two_flats ["a.fit"] "c.fit" ["b.fit"] "average" None).
  - constructor; [|constructor]. eexists. split; [reflexivity|done].
  - reflexivity.
Defined.

Lemma unknown_method_raises_witness :
  load_and_combine two_flats ["a.fit"; "b.fit"] "mean" None
  = Raise (UnboundLocalError "combined_data").
Proof.
  apply (unknown_method_raises two_flats ["a.fit"; "b.fit"]
           [[[px 100; px 100; px 100]]; [[px 102; px 98; px 100]]]
           None (1%nat, 3%nat) "mean"); try done.
  - concrete.
  - concrete.
Defined.

Lemma uniform_flat_is_neutral_witness :
  corrected_image [[px 50; px 60]] [[px 10; px 20]] (replicate 1 (replicate 2 (px 9)))
  = Ok (map2d Fin (zip_with (zip_with Qcminus) [[px 50; px 60]] [[px 10; px 20]])).
Proof.
  apply (uniform_flat_is_neutral [[px 50; px 60]] [[px 10; px 20]] 1 2 (px 9));
    concrete.
Defined.

Lemma first_job_entry_returned_witness :
  check_submission_status null_job 4 0 "s" 1 {| files := ∅; trace := [] |}
  = (Returned None,
     {| files := ∅;
        trace := [GetSubmission "s" 1; Sleep 30; GetSubmission "s" 1] |}).
Proof.
  apply (first_job_entry_returned null_job "s" 1%Z 1 4 0
           {| files := ∅; trace := [] |} None []); try done; try lia.
  intros i Hi. destruct i as [|i]; [concrete|lia].
Defined.

Lemma http_error_raised_first_witness :
  check_submission_status erroring 4 0 "s" 1 {| files := ∅; trace := [] |}
  = (Raised HTTPError,
     {| files := ∅;
        trace := [GetSubmission "s" 1; Sleep 30; GetSubmission "s" 1; Sleep 30;
                  GetSubmission "s" 1] |}).
Proof.
  apply (http_error_raised_first erroring "s" 1%Z 2 4 0
           {| files := ∅; trace := [] |}); try done; try lia.
  intros i Hi. destruct i as [|[|i]]; [concrete..|lia].
Defined.

Lemma completed_run_trace_witness :
  ∃ session_key subid n job_id raw,
    night !! target_path = Some raw
    ∧ (n < 5)%nat
    ∧ is_Some (info_calibration (info_reply solving job_id))
    ∧ trace night_run.2
      = [PostLogin "key"; PostUpload session_key raw]
        ++ poll_events session_key subid n
        ++ [GetSubmission session_key subid; GetJobInfo job_id].
Proof.
  apply (completed_run_trace (λ _, Fin 0) (λ _ _ _, one_star) (λ _ _ _, Fin (px 96))
           (λ c xy, (c.1 + xy.1, c.2 + xy.2)) solving "key" 5 night
           [{| xcenter := px 0; ycenter := px 1; aperture_sum := Fin (px 96);
               ra_deg := Q2Qc (270001 # 1800); dec_deg := Q2Qc (1801 # 900) |}]).
  rewrite <- night_run_result. apply surjective_pairing.
Defined.

Lemma rejected_login_aborts_witness :
  ∃ e,
    pipeline (λ _, Fin 0) (λ _ _ _, one_star) (λ _ _ _, Fin (px 96))
             (λ c xy, (c.1 + xy.1, c.2 + xy.2)) rejecting "key" 5
             {| files := ∅; trace := [] |}
    = (Raised e, extend {| files := ∅; trace := [] |} [PostLogin "key"]).
Proof.
  apply (rejected_login_aborts (λ _, Fin 0) (λ _ _ _, one_star) (λ _ _ _, Fin (px 96))
           (λ c xy, (c.1 + xy.1, c.2 + xy.2)) rejecting "key" 5).
  by right.
Defined.

Lemma failed_calibration_aborts_witness :
  pipeline (λ _, Fin 0) (λ _ _ _, one_star) (λ _ _ _, Fin (px 96))
           (λ c xy, (c.1 + xy.1, c.2 + xy.2)) solving "key" 5
           {| files := two_flats; trace := [] |}
  = (Raised (FileNotFoundError "calibration-0001D-15.fit"),
     {| files := two_flats; trace := [] ++ [PostLogin "key"] |}).
Proof.
  apply (failed_calibration_aborts (λ _, Fin 0) (λ _ _ _, one_star)
           (λ _ _ _, Fin (px 96)) (λ c xy, (c.1 + xy.1, c.2 + xy.2))
           solving "key" 5 two_flats [] "s"); reflexivity.
Defined.

Lemma only_processed_image_written_witness :
  untouched night night_run.2 ∨ stored night night_run.2.
Proof.
  apply (only_processed_image_written (λ _, Fin 0) (λ _ _ _, one_star)
           (λ _ _ _, Fin (px 96)) (λ c xy, (c.1 + xy.1, c.2 + xy.2))
           solving "key" 5 night [] night_run.1 night_run.2).
  apply surjective_pairing.
Defined.

Lemma one_row_per_star_witness :
  ∃ rows,
    measure_stars (λ _, Fin 0) (λ _ _ _, one_star) (λ _ _ _, Fin (px 96))
      (λ c xy, (c.1 + xy.1, c.2 + xy.2)) [[Fin (px 40)]] (make_wcs solved) = Ok rows
    ∧ Forall2 (λ st row,
                 xcenter row = xcentroid st ∧ ycenter row = ycentroid st
                 ∧ aperture_sum row = Fin (px 96))
              one_star rows.
Proof.
  apply (one_row_per_star (λ _, Fin 0) (λ _ _ _, one_star) (λ _ _ _, Fin (px 96))
           (λ c xy, (c.1 + xy.1, c.2 + xy.2)) [[Fin (px 40)]] (make_wcs solved)
           one_star); by vm_compute.
Defined.

Lemma swarp_failure_not_raised_witness :
  stacking_cell failing_swarp stale_host
  = (Ok [[px 1; px 2]],
     print_message (SwarpError 1) (create_input_list fits_files "input.list" stale_host).2).
Proof.
  apply (swarp_failure_not_raised failing_swarp stale_host
           (create_input_list fits_files "input.list" stale_host).2 1); done.
Defined.

Lemma swarp_missing_raises_witness :
  stacking_cell no_swarp stale_host
  = (Raise (FileNotFoundError "swarp"),
     (create_input_list fits_files "input.list" stale_host).2).
Proof.
  apply (swarp_missing_raises no_swarp stale_host
           (create_input_list fits_files "input.list" stale_host).2). done.
Defined.
